(** * YTSync plugin: the client-side player of a shared viewing session

    A shallow embedding of [src/player.ts] (class [Player]): the handler of
    inbound socket messages, the queue kept in the page, the roster of
    clients, the autoplay flag and the callbacks of the host page.

    Conventions of the embedding.
    - A JavaScript [number] is a binary64 value: Rocq's primitive [float].
    - A string is a [string] of bytes (UTF-8).
    - The player object of the host page, the socket and the page itself are
      collaborators: what the code reads from them is part of the state, what
      the code tells them is appended to a trace of effects.
    - A method that can throw returns an [Outcome]; [try]/[catch] is a match
      on it.
    - A selector that a template literal completes with an id is read as
      jQuery reads it when the id stands for itself between the quotes;
      [jq_find] says what the model does with the other ids. *)

From Stdlib Require Import ZArith List String Ascii Bool Lia Floats.
From Stdlib Require Import DecimalString.
Import ListNotations.

Local Open Scope string_scope.
Local Open Scope list_scope.

(** ** Numbers *)

Module Number.

Local Open Scope Z_scope.

(** The binary64 value nearest to [(-1)^neg * m * 10^dexp], ties to even:
    the rounding every decimal literal of the language goes through. *)
Definition round_decimal (neg : bool) (m dexp : Z) : spec_float :=
  match m with
  | Zpos _ =>
      if 0 <=? dexp
      then binary_normalize prec emax (cond_Zopp neg (m * 10 ^ dexp)) 0 false
      else
        let '(q, e, l) := SFdiv_core_binary prec emax m 0 (10 ^ (- dexp)) 0 in
        binary_round_aux prec emax neg q e l
  | _ => S754_zero neg
  end.

Definition of_decimal (neg : bool) (m dexp : Z) : float :=
  SF2Prim (round_decimal neg m dexp).

(** [Math.abs(a - b) > margin], as one boolean. *)
Definition differs_more_than (a b margin : float) : bool :=
  PrimFloat.ltb margin (PrimFloat.abs (PrimFloat.sub a b)).

(** Leading white space and line terminators, in UTF-8: the characters
    [parseFloat] skips before it reads a literal, by their length in bytes. *)
Definition byte (c : ascii) : Z := Z.of_N (N_of_ascii c).

Definition white1 (c : ascii) : bool :=
  let n := byte c in
  (n =? 9) || (n =? 10) || (n =? 11) || (n =? 12) || (n =? 13) || (n =? 32).

(* U+00A0 *)
Definition white2 (c1 c2 : ascii) : bool :=
  (byte c1 =? 194) && (byte c2 =? 160).

(* U+1680, U+2000..U+200A, U+2028, U+2029, U+202F, U+205F, U+3000, U+FEFF *)
Definition white3 (c1 c2 c3 : ascii) : bool :=
  let '(a, b, c) := (byte c1, byte c2, byte c3) in
  ((a =? 225) && (b =? 154) && (c =? 128))
  || ((a =? 226) && (b =? 128)
      && (((128 <=? c) && (c <=? 138)) || (c =? 168) || (c =? 169) || (c =? 175)))
  || ((a =? 226) && (b =? 129) && (c =? 159))
  || ((a =? 227) && (b =? 128) && (c =? 128))
  || ((a =? 239) && (b =? 187) && (c =? 191)).

Fixpoint trimStart (s : string) : string :=
  match s with
  | String c1 r1 =>
      if white1 c1 then trimStart r1
      else match r1 with
           | String c2 r2 =>
               if white2 c1 c2 then trimStart r2
               else match r2 with
                    | String c3 r3 =>
                        if white3 c1 c2 c3 then trimStart r3 else s
                    | EmptyString => s
                    end
           | EmptyString => s
           end
  | EmptyString => s
  end.

Definition digit (c : ascii) : option Z :=
  let n := byte c in
  if (48 <=? n) && (n <=? 57) then Some (n - 48) else None.

(** [DecimalDigits], read greedily: the number read so far, how many
    digits were read, and the rest of the string. *)
Fixpoint digits (s : string) (acc count : Z) : Z * Z * string :=
  match s with
  | String c r =>
      match digit c with
      | Some d => digits r (10 * acc + d) (count + 1)
      | None => (acc, count, s)
      end
  | EmptyString => (acc, count, s)
  end.

Definition sign (s : string) : bool * string :=
  match s with
  | String "-" r => (true, r)
  | String "+" r => (false, r)
  | _ => (false, s)
  end.

(** [ExponentPart]: an [e] or [E], an optional sign and at least one digit;
    anything else is not part of the literal and counts as exponent 0. *)
Definition exponent (s : string) : Z :=
  match s with
  | String c r =>
      if (byte c =? 101) || (byte c =? 69)
      then let '(neg, r') := sign r in
           let '(e, n, _) := digits r' 0 0 in
           if n =? 0 then 0 else cond_Zopp neg e
      else 0
  | EmptyString => 0
  end.

(** The fraction after the integer part: the digits that follow a dot. *)
Definition fraction (s : string) (int : Z) : Z * Z * string :=
  match s with
  | String "." r => digits r int 0
  | _ => (int, 0, s)
  end.

(** [parseFloat(string)]: the longest prefix of the trimmed string that is
    a [StrDecimalLiteral], rounded to binary64; [NaN] when there is none. *)
Definition parseFloat (s : string) : float :=
  let '(neg, body) := sign (trimStart s) in
  if prefix "Infinity" body
  then (if neg then neg_infinity else infinity)
  else
    let '(int, n_int, after_int) := digits body 0 0 in
    let '(m, n_frac, after_frac) := fraction after_int int in
    if n_int + n_frac =? 0 then nan
    else of_decimal neg m (exponent after_frac - n_frac).

End Number.

Import Number.

(** ** Data model *)

(** The kinds of message, [enum Message]. The strings that stand for them on
    the wire are not needed: a frame is met here after it was decoded. *)
Inductive Message :=
| PLAY | PAUSE | SEEK | PLAY_VIDEO
| ADD_TO_QUEUE | REMOVE_FROM_QUEUE | QUEUE
| AUTOPLAY
| CLIENTS | CLIENT_CONNECT | CLIENT_DISCONNECT
| REACTION | PROMOTE | UNPROMOTE.

Record Video := mkVideo {
  videoId : string;
  title : string;
  byline : string
}.

Record QueueMessageData := mkQueueData {
  video : option Video;        (* [null] is [None] *)
  videos : list Video
}.

(** Modelled from the spec: the declaration of [Client] (model/client) is not
    among the sources; the spec gives it a [socketId], a [promoted] flag and
    an optional [displayName]. The code of [Player] reads [socketId] only. *)
Record Client := mkClient {
  socketId : string;
  promoted : bool;
  displayName : option string
}.

(** [YT.PlayerState] *)
Inductive PlayerState :=
| UNSTARTED | ENDED | PLAYING | PAUSED | BUFFERING | CUED.

(** What the player of the host page answers when it is asked. *)
Record YTPlayer := mkYTPlayer {
  getCurrentTime : float;
  getPlayerState : PlayerState
}.

(** The query string of [window.location], as [URLSearchParams] reads it:
    the parameter [v] and the parameter named by [SessionId]. *)
Record Location := mkLocation {
  param_v : option string;
  param_session : option string
}.

Record PlayerOptions := mkOptions {
  protocol : string;
  host : string;
  port : string
}.

(** One child of [queueItemsElement]. Its click and delete handlers are the
    closures [queueElementClickHandler(videoId)] and
    [queueElementDeleteHandler(videoId)]: they are determined by the
    [videoId] attribute. *)
Record QueueElement := mkElement {
  attr_videoId : string;
  text_title : string;
  text_byline : string;
  attr_selected : bool
}.

(** [roomInfoElement]: its description line, the [#autoplay] toggle and the
    participants under [#items]. *)
Record RoomInfo := mkRoomInfo {
  description : string;
  autoplayToggle : bool;
  participants : list Client
}.

(** The fields of [class Player]. The two page elements exist from [create]
    on; before, they hold nothing. *)
Record Player := mkPlayer {
  sessionId : option string;
  ytPlayer : option YTPlayer;                 (* [null] is [None] *)
  options : PlayerOptions;
  queueItemsElement : list QueueElement;
  roomInfoElement : RoomInfo;
  autoplay : bool;
  clients : list Client
}.

(** The data of an outbound message, before [JSON.stringify]. *)
Inductive Payload :=
| seconds (t : float)          (* [getCurrentTime().toString()] *)
| text (s : string)
| flag (b : bool)
| entry (v : Video).

(** What can be thrown: by [JSON.parse], by a read of a member of [null] or
    [undefined], and by jQuery for a selector it cannot read. *)
Inductive Exception := SyntaxError | TypeError | UnrecognizedExpression.

(** What the code tells its collaborators. *)
Inductive Effect :=
| seekTo (t : float) (allowSeekAhead : bool)
| playVideo
| pauseVideo
| ws_send (action : Message) (data : Payload)
| onYtNavigate_ (videoId : string) (session : option string)
| removeUpnext
| removeRelated
| location_search_assign (l : Location)
| console_error (e : Exception)
| addEventListener_onStateChange
| injectEmptyQueueShell
| injectEmptyRoomInfoShell
| startSeekSchedule
| startUrlChangeSchedule
| startQueueStoreSchedule
| io_connect (url : string)
| new_YT_Player (videoId : string).

Record World := mkWorld {
  this : Player;
  window_location : Location;
  trace : list Effect
}.

Inductive Outcome :=
| Done (w : World)
| Thrown (e : Exception) (w : World).

(** The argument of [populateQueue] as a frame can hand it over: the whole
    data; data without the member [video], where [data.video] is [undefined],
    which is not [null]; and a value without the member [videos] ([null], a
    string, an object that has none). *)
Inductive QueuePayload :=
| whole (data : QueueMessageData)
| without_video (videos : list Video)
| without_videos.

(** An inbound frame, as [JSON.parse] reads it. [Unparseable]: [JSON.parse]
    throws. [Null]: the text is the JSON [null], and reading [json.action]
    throws. [Other]: the action has no [case] in the handler ([REACTION],
    [PROMOTE], [UNPROMOTE], a string outside the enumeration, or none at
    all). In the other frames the payload [json.data] has the type of the
    parameter it is handed to: a string for [parseFloat], a [Video] for
    [addToQueue] and for [removeFromQueue] (which reads [video.videoId]), and
    so on. Three frames carry a payload of another shape: a [QUEUE] without
    the member [video] or without the member [videos], and a
    [REMOVE_FROM_QUEUE] whose payload is the video id itself, a string, as
    the delete handler of a queue entry sends it. *)
Inductive Frame :=
| Unparseable
| Null
| Play (data : string)
| Pause (data : string)
| Seek (data : string)
| Autoplay (data : bool)
| PlayVideo (data : string)
| Queue (data : QueueMessageData)
| AddToQueue (data : Video)
| RemoveFromQueue (data : Video)
| Clients (data : list Client)
| ClientConnect (data : Client)
| ClientDisconnect (data : string)
| Other
| QueueWithoutVideo (videos : list Video)
| QueueWithoutVideos
| RemoveFromQueueText (data : string).

(** *** Field updates *)

Definition with_this (f : Player -> Player) (w : World) : World :=
  mkWorld (f (this w)) (window_location w) (trace w).

Definition emit (e : Effect) (w : World) : World :=
  mkWorld (this w) (window_location w) (trace w ++ [e]).

Definition set_queueItemsElement (q : list QueueElement) (p : Player) : Player :=
  mkPlayer (sessionId p) (ytPlayer p) (options p) q (roomInfoElement p)
           (autoplay p) (clients p).

Definition set_roomInfoElement (r : RoomInfo) (p : Player) : Player :=
  mkPlayer (sessionId p) (ytPlayer p) (options p) (queueItemsElement p) r
           (autoplay p) (clients p).

Definition set_autoplay (b : bool) (p : Player) : Player :=
  mkPlayer (sessionId p) (ytPlayer p) (options p) (queueItemsElement p)
           (roomInfoElement p) b (clients p).

Definition set_clients (l : list Client) (p : Player) : Player :=
  mkPlayer (sessionId p) (ytPlayer p) (options p) (queueItemsElement p)
           (roomInfoElement p) (autoplay p) l.

Definition set_ytPlayer (y : option YTPlayer) (p : Player) : Player :=
  mkPlayer (sessionId p) y (options p) (queueItemsElement p)
           (roomInfoElement p) (autoplay p) (clients p).

Definition set_sessionId (s : option string) (p : Player) : Player :=
  mkPlayer s (ytPlayer p) (options p) (queueItemsElement p)
           (roomInfoElement p) (autoplay p) (clients p).

Definition andThen (o : Outcome) (k : World -> Outcome) : Outcome :=
  match o with
  | Done w => k w
  | Thrown e w => Thrown e w
  end.

Notation "o >>= k" := (andThen o k) (at level 50, left associativity).

(** [try { body } catch(e) { console.error(e); }] *)
Definition try_catch_log (o : Outcome) : World :=
  match o with
  | Done w => w
  | Thrown e w => emit (console_error e) w
  end.

(** ** Page helpers

    The helpers of [util/yt-html] and the jQuery calls on the two page
    elements, on the lists that stand for these elements. *)

(** Modelled from the spec: [injectYtPlaylistPanelVideoRendererElement] is not
    among the sources. A queue entry is appended at the end of the queue,
    without looking for an entry of the same [videoId]; it is one child of
    the element, carries the [videoId] in an attribute and is marked
    [selected] when asked. *)
Definition injectYtPlaylistPanelVideoRendererElement
    (element : list QueueElement) (selected : bool)
    (videoId title byline : string) : list QueueElement :=
  element ++ [mkElement videoId title byline selected].

(** Modelled from the spec: [setPapperToggleButtonState] is not among the
    sources; it makes the bound indicator show the given state. *)
Definition setPapperToggleButtonState (r : RoomInfo) (state : bool) : RoomInfo :=
  mkRoomInfo (description r) state (participants r).

(** Modelled from the spec: [injectYtLiveChatParticipantRenderer] is not among
    the sources; it appends one participant, which carries the [socketId] in
    an attribute. *)
Definition injectYtLiveChatParticipantRenderer (r : RoomInfo) (c : Client) : RoomInfo :=
  mkRoomInfo (description r) (autoplayToggle r) (participants r ++ [c]).

(** Modelled from the spec: [changeYtPlaylistPanelRendererDescription] is not
    among the sources; it replaces the description line. *)
Definition changeYtPlaylistPanelRendererDescription (r : RoomInfo) (d : string) : RoomInfo :=
  mkRoomInfo d (autoplayToggle r) (participants r).

(** [n.toString()] for a length. *)
Definition string_of_nat (n : nat) : string :=
  NilZero.string_of_uint (Nat.to_uint n).

Definition connected (n : nat) : string :=
  "Connected (" ++ string_of_nat n ++ ")".

(** A character that stands for itself between the double quotes of an
    attribute selector: any but the double quote, the backslash and the
    control characters. *)
Definition stands_for_itself (c : ascii) : bool :=
  let n := byte c in
  ((32 <=? n) && negb (n =? 34) && negb (n =? 92) && negb (n =? 127))%Z.

(** A value all of whose characters stand for themselves. The ids of the
    host's videos and of the socket's connections, made of letters, digits,
    [-] and [_], are such values. *)
Fixpoint selector_safe (x : string) : bool :=
  match x with
  | EmptyString => true
  | String c r => stands_for_itself c && selector_safe r
  end.

(** The selectors [[videoId="x"]] and [[socketId="x"]] for a value [x] that
    is [selector_safe]: the attribute equals [x]. *)
Definition has_videoId (x : string) (e : QueueElement) : bool :=
  String.eqb (attr_videoId e) x.

Definition has_socketId (x : string) (c : Client) : bool :=
  String.eqb (socketId c) x.

(** [find] with a selector that a template literal completes with [x]: the
    test the selector stands for, or nothing when jQuery throws. For a value
    that is [selector_safe] the selector is the test above. A double quote
    in [x] ends the quoted string early, and what follows it is not the end
    of an attribute selector: jQuery throws its error for an expression it
    does not recognize. Other values (with a backslash, which escapes the
    character after it; with a control character; with a double quote and a
    closing bracket, which can make up other selectors) are not followed:
    the model lets them throw as well, and the properties that depend on
    what is selected are stated for values that are [selector_safe]. *)
Definition jq_find {A : Type} (has : string -> A -> bool) (x : string)
  : option (A -> bool) :=
  if selector_safe x then Some (has x) else None.

(** [`${video.videoId}`], for what a frame can hand over as [video]: the
    member of a [Video]; a string has no such member, the read gives
    [undefined] and the template literal its name. *)
Definition template_videoId (video : Video + string) : string :=
  match video with
  | inl v => videoId v
  | inr _ => "undefined"
  end.

(** [c => c.socketId !== x] *)
Definition other_than (x : string) (c : Client) : bool :=
  negb (String.eqb (socketId c) x).

(** [$(...).find(sel).remove()]: every element the selector matches goes. *)
Definition jq_remove {A : Type} (matches : A -> bool) (l : list A) : list A :=
  filter (fun e => negb (matches e)) l.

Definition removeAttr_selected (e : QueueElement) : QueueElement :=
  mkElement (attr_videoId e) (text_title e) (text_byline e) false.

Definition attr_selected_set (matches : QueueElement -> bool) (e : QueueElement)
  : QueueElement :=
  if matches e
  then mkElement (attr_videoId e) (text_title e) (text_byline e) true
  else e.

(** The position of the first element the test holds for: where
    [find(sel).get(0)] sits among the children, if there is one. *)
Fixpoint position {A : Type} (test : A -> bool) (l : list A) : option nat :=
  match l with
  | [] => None
  | e :: r => if test e then Some 0 else option_map S (position test r)
  end.

(** [children.index(elem)] of jQuery, with [elem] the result of [get(0)].
    For an element of the collection it is its position. For [undefined]
    (nothing was found) jQuery takes the call as one without argument and
    answers the position of the first element of the collection among its
    siblings: 0 when the collection has an element, -1 when it is empty. *)
Definition jq_index {A : Type} (children : list A) (elem : option nat) : Z :=
  match elem with
  | Some i => Z.of_nat i
  | None => match children with [] => (-1)%Z | _ :: _ => 0%Z end
  end.

(** ** The methods of [Player] *)

Definition PlayerState_eqb (a b : PlayerState) : bool :=
  match a, b with
  | UNSTARTED, UNSTARTED | ENDED, ENDED | PLAYING, PLAYING
  | PAUSED, PAUSED | BUFFERING, BUFFERING | CUED, CUED => true
  | _, _ => false
  end.

(** A call of a method of [this.ytPlayer]: a [TypeError] while it is [null]. *)
Definition ytPlayer_do (e : Effect) (w : World) : Outcome :=
  match ytPlayer (this w) with
  | Some _ => Done (emit e w)
  | None => Thrown TypeError w
  end.

Definition sendWsMessage (type : Message) (data : Payload) (w : World) : World :=
  emit (ws_send type data) w.

Definition sendWsTimeMessage (type : Message) (w : World) : Outcome :=
  match ytPlayer (this w) with
  | Some p => Done (sendWsMessage type (seconds (getCurrentTime p)) w)
  | None => Thrown TypeError w
  end.

Definition sendWsRequestToAddToQueue (video : Video) (w : World) : World :=
  sendWsMessage ADD_TO_QUEUE (entry video) w.

Definition queueElementDeleteHandler (videoId : string) (w : World) : World :=
  sendWsMessage REMOVE_FROM_QUEUE (text videoId) w.

Definition addToQueue (video : Video) (selected : bool) (w : World) : World :=
  with_this (fun p =>
    set_queueItemsElement
      (injectYtPlaylistPanelVideoRendererElement (queueItemsElement p) selected
         (videoId video) (title video) (byline video)) p) w.

(** The queue is emptied first. Without [data.videos] the call of [forEach]
    throws; without [data.video] the test of the first video throws, at
    [data.video.videoId], and an empty list of videos passes. *)
Definition populateQueue (data : QueuePayload) (w : World) : Outcome :=
  let w := with_this (set_queueItemsElement []) w in
  match data with
  | whole data =>
      Done (fold_left
              (fun w v =>
                 addToQueue v
                   match video data with
                   | Some sel => String.eqb (videoId v) (videoId sel)
                   | None => false
                   end w)
              (videos data) w)
  | without_video [] => Done w
  | without_video (_ :: _) => Thrown TypeError w
  | without_videos => Thrown TypeError w
  end.

Definition removeFromQueue (video : Video + string) (w : World) : Outcome :=
  match jq_find has_videoId (template_videoId video) with
  | Some matches =>
      Done (with_this (fun p =>
              set_queueItemsElement (jq_remove matches (queueItemsElement p)) p) w)
  | None => Thrown UnrecognizedExpression w
  end.

(** Every entry is deselected before the entries to select are looked for. *)
Definition selectQueueElement (videoId : string) (w : World) : Outcome :=
  let w := with_this (fun p =>
             set_queueItemsElement (map removeAttr_selected (queueItemsElement p)) p) w in
  match jq_find has_videoId videoId with
  | Some matches =>
      Done (with_this (fun p =>
              set_queueItemsElement
                (map (attr_selected_set matches) (queueItemsElement p)) p) w)
  | None => Thrown UnrecognizedExpression w
  end.

Definition differs_from (current : option string) (videoId : string) : bool :=
  match current with
  | Some c => negb (String.eqb c videoId)
  | None => true
  end.

(** [YTUtil.getApp()] is the app element of the host page; the page has one. *)
Definition navigateToVideo (videoId : string) (w : World) : Outcome :=
  selectQueueElement videoId w >>= fun w =>
  let currentVideoId := param_v (window_location w) in
  let w := if differs_from currentVideoId videoId
           then emit (onYtNavigate_ videoId (sessionId (this w))) w
           else w in
  Done (emit removeRelated (emit removeUpnext w)).

Definition queueElementClickHandler (videoId : string) (w : World) : Outcome :=
  navigateToVideo videoId w.

(** The part of [playNextVideoInQueue] before the navigation: the [videoId]
    of the entry after the current one, or nothing when the method returns
    early. Past the early return [children.get(index + 1)] is an entry
    (lemma [nextVideoId_early_return]). *)
Definition nextVideoId (children : list QueueElement) : option string :=
  let current := position attr_selected children in
  let index := jq_index children current in
  if (index =? Z.of_nat (List.length children) - 1)%Z then None
  else option_map attr_videoId (nth_error children (Z.to_nat (index + 1))).

Definition playNextVideoInQueue (w : World) : Outcome :=
  match nextVideoId (queueItemsElement (this w)) with
  | Some next => navigateToVideo next w
  | None => Done w
  end.

Definition setAutoplay (autoplay' : bool) (force : bool) (w : World) : World :=
  if Bool.eqb (autoplay (this w)) autoplay' && negb force then w
  else
    let w := with_this (set_autoplay autoplay') w in
    let w := with_this (fun p =>
               set_roomInfoElement
                 (setPapperToggleButtonState (roomInfoElement p) autoplay') p) w in
    sendWsMessage AUTOPLAY (flag (autoplay (this w))) w.

Definition describe_clients (w : World) : World :=
  with_this (fun p =>
    set_roomInfoElement
      (changeYtPlaylistPanelRendererDescription (roomInfoElement p)
         (connected (List.length (clients p)))) p) w.

Definition addClients (clients' : list Client) (w : World) : World :=
  let socketIds := map socketId (clients (this w)) in
  let w :=
    fold_left
      (fun w c =>
         if existsb (String.eqb (socketId c)) socketIds then w
         else
           let w := with_this (fun p =>
                      set_roomInfoElement
                        (injectYtLiveChatParticipantRenderer (roomInfoElement p) c) p) w in
           with_this (fun p => set_clients (clients p ++ [c]) p) w)
      clients' w in
  describe_clients w.

Definition removeClient (socketId : string) (w : World) : Outcome :=
  match jq_find has_socketId socketId with
  | Some matches =>
      let w := with_this (fun p =>
                 set_roomInfoElement
                   (mkRoomInfo (description (roomInfoElement p))
                      (autoplayToggle (roomInfoElement p))
                      (jq_remove matches (participants (roomInfoElement p)))) p) w in
      let w := with_this (fun p =>
                 set_clients (filter (other_than socketId) (clients p)) p) w in
      Done (describe_clients w)
  | None => Thrown UnrecognizedExpression w
  end.

(** The default of the parameter [margin]. *)
Definition default_margin : float := 1%float.

Definition syncPlayerTime (videoTime margin : float) (w : World) : Outcome :=
  match ytPlayer (this w) with
  | Some p =>
      if differs_more_than videoTime (getCurrentTime p) margin
      then ytPlayer_do (seekTo videoTime true) w
      else Done w
  | None => Thrown TypeError w
  end.

Definition onWsMessage_try (message : Frame) (w : World) : Outcome :=
  match message with
  | Unparseable => Thrown SyntaxError w
  | Null => Thrown TypeError w
  | _ =>
      match ytPlayer (this w) with
      | None => Thrown TypeError w
      | Some p =>
          let playerState := getPlayerState p in
          match message with
          | Play data =>
              syncPlayerTime (parseFloat data) default_margin w >>= fun w =>
              if PlayerState_eqb playerState PAUSED
              then ytPlayer_do playVideo w
              else Done w
          | Pause data =>
              syncPlayerTime (parseFloat data) default_margin w >>= fun w =>
              if PlayerState_eqb playerState PLAYING
              then ytPlayer_do pauseVideo w
              else Done w
          | Seek data => ytPlayer_do (seekTo (parseFloat data) true) w
          | Autoplay data => Done (setAutoplay data false w)
          | PlayVideo data => navigateToVideo data w
          | Queue data => populateQueue (whole data) w
          | QueueWithoutVideo videos => populateQueue (without_video videos) w
          | QueueWithoutVideos => populateQueue without_videos w
          | AddToQueue data => Done (addToQueue data false w)
          | RemoveFromQueue data => removeFromQueue (inl data) w
          | RemoveFromQueueText data => removeFromQueue (inr data) w
          | Clients data => Done (addClients data w)
          | ClientConnect data => Done (addClients [data] w)
          | ClientDisconnect data => removeClient data w
          | _ => Done w
          end
      end
  end.

Definition onWsMessage (message : Frame) (w : World) : World :=
  try_catch_log (onWsMessage_try message w).

Definition onStateChange (state : PlayerState) (w : World) : Outcome :=
  match state with
  | PLAYING => sendWsTimeMessage PLAY w
  | PAUSED => sendWsTimeMessage PAUSE w
  | ENDED => if autoplay (this w) then playNextVideoInQueue w else Done w
  | _ => Done w
  end.

Definition is_some {A : Type} (o : option A) : bool :=
  match o with Some _ => true | None => false end.

Definition onUrlChange (o n : Location) (w : World) : World :=
  let oldSessionId := param_session o in
  let newSessionId := param_session n in
  if is_some oldSessionId && negb (is_some newSessionId)
  then emit (location_search_assign n) w
  else match param_v n with
       | Some videoId => sendWsMessage PLAY_VIDEO (text videoId) w
       | None => w
       end.

Definition onPlayerSeek (w : World) : Outcome :=
  sendWsTimeMessage SEEK w.

Definition connectWs (sessionId : string) (w : World) : World :=
  let w := with_this (set_sessionId (Some sessionId)) w in
  let o := options (this w) in
  emit (io_connect (protocol o ++ "://" ++ host o ++ ":" ++ port o ++ "/" ++ sessionId)) w.

(** [video] is what [VideoUtil.getCurrentVideo()] reads from the page. *)
Definition onWsConnected (video : Video) (w : World) : World :=
  let w := sendWsRequestToAddToQueue video w in
  let w := sendWsMessage PLAY_VIDEO (text (videoId video)) w in
  setAutoplay (autoplay (this w)) true w.

(** [getPlayer] is what [YTUtil.getPlayer()] finds in the page. *)
Definition create (getPlayer : option YTPlayer) (sessionId : string) (w : World)
  : Outcome :=
  if is_some (ytPlayer (this w)) then Done w
  else
    let w := with_this (set_ytPlayer getPlayer) w in
    ytPlayer_do addEventListener_onStateChange w >>= fun w =>
    let w := emit injectEmptyQueueShell w in
    let w := with_this (set_queueItemsElement []) w in
    let w := emit injectEmptyRoomInfoShell w in
    let w := with_this (set_roomInfoElement (mkRoomInfo "Not connected" false [])) w in
    let w := emit startSeekSchedule w in
    let w := emit startUrlChangeSchedule w in
    let w := emit startQueueStoreSchedule w in
    Done (connectWs sessionId w).

(** The earlier [Player] of the same file: [create(videoId, sessionId)]
    builds the player itself; [fresh] is the player [new YT.Player] returns. *)
Module Earlier.

Definition create (fresh : YTPlayer) (videoId sessionId : string) (w : World)
  : World :=
  if is_some (ytPlayer (this w)) then w
  else
    let w := emit injectEmptyQueueShell w in
    let w := with_this (set_queueItemsElement []) w in
    let w := with_this (set_ytPlayer (Some fresh)) w in
    emit (new_YT_Player videoId) w.

End Earlier.

(** ** The page around the player *)

(** The effects a step added to the trace. *)
Definition issued (w w' : World) : list Effect :=
  skipn (List.length (trace w)) (trace w').

Definition is_ws_send (e : Effect) : bool :=
  match e with ws_send _ _ => true | _ => false end.

Definition is_seekTo (e : Effect) : bool :=
  match e with seekTo _ _ => true | _ => false end.

Definition option_string_eqb (a b : option string) : bool :=
  match a, b with
  | Some x, Some y => String.eqb x y
  | None, None => true
  | _, _ => false
  end.

Definition Location_eqb (a b : Location) : bool :=
  option_string_eqb (param_v a) (param_v b)
  && option_string_eqb (param_session a) (param_session b).

(** Modelled from the spec: the host page is a collaborator that navigates to
    a different video without a full reload. When it follows a request made
    through [onYtNavigate_], the query string names the requested video and
    carries the parameters given with the request. *)
Definition host_navigates (e : Effect) (w : World) : World :=
  match e with
  | onYtNavigate_ videoId session =>
      mkWorld (this w) (mkLocation (Some videoId) session) (trace w)
  | _ => w
  end.

(** Modelled from the spec: [ScheduleUtil.startUrlChangeSchedule] is not among
    the sources. It is a periodic task that compares the previous observation
    of the location with the current one and invokes its callback on change.
    [o] is the previous observation. *)
Definition urlChangeSchedule_tick (o : Location) (w : World) : World :=
  let n := window_location w in
  if Location_eqb o n then w else onUrlChange o n w.

(** An inbound frame, the page following the navigations the handler asked
    for, and the next tick of the URL schedule. *)
Definition inbound_then_url_tick (message : Frame) (w : World) : World :=
  let o := window_location w in
  let w' := onWsMessage message w in
  let w' := fold_left (fun w e => host_navigates e w) (issued w w') w' in
  urlChangeSchedule_tick o w'.

(** What a [QUEUE] snapshot looks like in the page. *)
Definition snapshot_selects (data : QueueMessageData) (v : Video) : bool :=
  match video data with
  | Some sel => String.eqb (videoId v) (videoId sel)
  | None => false
  end.

Definition rendered (data : QueueMessageData) : list QueueElement :=
  map (fun v => mkElement (videoId v) (title v) (byline v) (snapshot_selects data v))
      (videos data).

(** ** Sample states *)

Module Sample.

Definition opts : PlayerOptions := mkOptions "http" "127.0.0.1" "8080".

Definition A : Video := mkVideo "aaaaaaaaaaa" "First" "one".
Definition B : Video := mkVideo "bbbbbbbbbbb" "Second" "two".
Definition C : Video := mkVideo "ccccccccccc" "Third" "three".

Definition slot (v : Video) (selected : bool) : QueueElement :=
  mkElement (videoId v) (title v) (byline v) selected.

(** An id that holds a double quote: [b], the quote, [b]. *)
Definition quoted : string := String "b" (String "034" "b").

Definition alice : Client := mkClient "s-1" true (Some "alice").
Definition bob : Client := mkClient "s-2" false None.

(** A player that was created and joined session [room]: it is at 10
    seconds of video [A], in the given state, with the given queue. *)
Definition world (state : PlayerState) (queue : list QueueElement) : World :=
  mkWorld
    (mkPlayer (Some "room") (Some (mkYTPlayer 10 state)) opts queue
              (mkRoomInfo (connected 2) true [alice; bob]) true [alice; bob])
    (mkLocation (Some "aaaaaaaaaaa") (Some "room"))
    [].

(** A player object before [create]. *)
Definition blank : World :=
  mkWorld
    (mkPlayer None None opts [] (mkRoomInfo "" false []) true [])
    (mkLocation (Some "aaaaaaaaaaa") (Some "room"))
    [].

End Sample.

(** ** Shapes the properties speak of *)

(** Whether the roster, by its list of ids, does not know a client. *)
Definition unknown_to (known : list string) (c : Client) : bool :=
  negb (existsb (String.eqb (socketId c)) known).

(** The roster and its element in the page, each with [new] at its end. *)
Definition joined (new : list Client) (p : Player) : Player :=
  set_clients (clients p ++ new)
    (set_roomInfoElement
       (mkRoomInfo (description (roomInfoElement p))
                   (autoplayToggle (roomInfoElement p))
                   (participants (roomInfoElement p) ++ new)) p).

(** The queue with the entries of [id], and no other, selected. *)
Definition selecting (id : string) (q : list QueueElement) : list QueueElement :=
  map (fun e => mkElement (attr_videoId e) (text_title e) (text_byline e)
                          (String.eqb (attr_videoId e) id)) q.

(** The page shows the clients the player holds. *)
Definition roster_in_sync (w : World) : Prop :=
  participants (roomInfoElement (this w)) = clients (this w).


(** The world a callback leaves: where it ended, or where it threw. *)
Definition after (o : Outcome) : World :=
  match o with
  | Done w => w
  | Thrown _ w => w
  end.

(** A callback of the page, the page following the navigations the callback
    asked for, and the next tick of the URL schedule. *)
Definition step_then_url_tick (step : World -> Outcome) (w : World) : World :=
  let o := window_location w in
  let w' := after (step w) in
  let w' := fold_left (fun w e => host_navigates e w) (issued w w') w' in
  urlChangeSchedule_tick o w'.

(** What happens to a player in a session, from outside: a frame comes in,
    or the user flips the autoplay toggle. Modelled from the spec for the
    second: [injectEmptyRoomInfoShell] is not among the sources; toggling
    autoplay locally runs the callback [create] gave it, with the new value,
    which the toggle shows by then. The callback calls [setAutoplay(state)]. *)
Inductive Event :=
| inbound (message : Frame)
| toggled (state : bool).

Definition happens (w : World) (e : Event) : World :=
  match e with
  | inbound message => onWsMessage message w
  | toggled state =>
      setAutoplay state false
        (with_this (fun p =>
           set_roomInfoElement
             (mkRoomInfo (description (roomInfoElement p)) state
                         (participants (roomInfoElement p))) p) w)
  end.

(** A CLIENT_DISCONNECT among the events carries a socketId that stands for
    itself in a selector. *)
Definition disconnects_safely (e : Event) : bool :=
  match e with
  | inbound (ClientDisconnect id) => selector_safe id
  | _ => true
  end.

(** [new Player(options)]: the constructor and the initial values of the
    fields. The two page elements are set by [create]. *)
Definition constructor (options : PlayerOptions) : Player :=
  mkPlayer None None options [] (mkRoomInfo "" false []) true [].

(** ** The first version: [plugin.ts] and its [Player]

    The class [Player] that [plugin.ts] creates (three arguments to
    [create]) speaks a protocol of text frames, [command data], and keeps a
    queue of video ids. Its [console.log] lines are left out. The three
    methods that send the current time ([sendWsTimeMessage], [onStateChange],
    [onPlayerSeek]) need the decimal text of a binary64 number and are not
    modelled. *)

Module First.

Inductive Message :=
| PLAY | PAUSE | SEEK | PLAY_VIDEO | ADD_TO_QUEUE | DELETE_FROM_QUEUE | QUEUE.

(** The string of a member of [enum Message]. *)
Definition toString (m : Message) : string :=
  match m with
  | PLAY => "play"
  | PAUSE => "pause"
  | SEEK => "seek"
  | PLAY_VIDEO => "play-video"
  | ADD_TO_QUEUE => "add-to-queue"
  | DELETE_FROM_QUEUE => "delete-from-queue"
  | QUEUE => "queue"
  end.

(** [s.split(sep)] for a separator of one character: the pieces between the
    separators, empty pieces included; one piece for a string without
    separator, the empty string too. *)
Fixpoint split (sep : ascii) (s : string) : list string :=
  match s with
  | EmptyString => [EmptyString]
  | String c r =>
      if Ascii.eqb c sep then EmptyString :: split sep r
      else match split sep r with
           | piece :: pieces => String c piece :: pieces
           | [] => [String c EmptyString]
           end
  end.

Inductive Interval :=
| syncButton | leaveButton | removeUpnext | queueInject | queueAddButton.

Inductive Effect :=
| seekTo (t : float) (allowSeekAhead : bool)
| playVideo
| pauseVideo
| ws_send (frame : string)
| changeQueryString (search : Location)
| loadVideoById (videoId : string)
| location_search_assign (l : Location)
| console_error (e : Exception)
| new_YT_Player (videoId : option string)
| window_cucu_player
| startSeekCheck
| startUrlChangeCheck
| io_connect (url : string)
| injectYtRenderedButton (id label : string)
| ytHTML_removeUpnext
| injectEmptyQueueShell
| Store_addElement (v : Video).

(** The fields of the class. A child of [queueElement] carries a video id;
    its title and byline are empty strings. *)
Record Player := mkPlayer {
  ytPlayer : option YTPlayer;          (* [undefined] is [None] *)
  options : PlayerOptions;
  queueElement : list string
}.

Record World := mkWorld {
  this : Player;
  window_location : Location;
  trace : list Effect
}.

Inductive Outcome :=
| Done (w : World)
| Thrown (e : Exception) (w : World).

Definition emit (e : Effect) (w : World) : World :=
  mkWorld (this w) (window_location w) (trace w ++ [e]).

Definition with_this (f : Player -> Player) (w : World) : World :=
  mkWorld (f (this w)) (window_location w) (trace w).

Definition try_catch_log (o : Outcome) : World :=
  match o with
  | Done w => w
  | Thrown e w => emit (console_error e) w
  end.

Definition issued (w w' : World) : list Effect :=
  skipn (List.length (trace w)) (trace w').

(** A value in a template literal: [null] and [undefined] give their names. *)
Definition template (null_name : string) (data : option string) : string :=
  match data with
  | Some s => s
  | None => null_name
  end.

Definition sendWsMessage (message : Message) (data : string) (w : World) : World :=
  emit (ws_send (toString message ++ " " ++ data)) w.

(** [fresh] is the player [new window.YT.Player] returns; [videoId] is what
    the caller read from the URL, [null] when the URL has no [v]. *)
Definition create (fresh : YTPlayer) (videoId sessionId : option string)
    (queueElement : list string) (w : World) : World :=
  let w := with_this (fun p => mkPlayer (ytPlayer p) (options p) queueElement) w in
  let w := with_this (fun p => mkPlayer (Some fresh) (options p) (First.queueElement p)) w in
  let w := emit (new_YT_Player videoId) w in
  emit window_cucu_player w.

Definition connectWs (sessionId : string) (w : World) : World :=
  let o := options (this w) in
  emit (io_connect (protocol o ++ "://" ++ host o ++ ":" ++ port o ++ "/" ++ sessionId)) w.

Definition onReady (sessionId : string) (videoId : option string) (w : World) : World :=
  let w := emit startSeekCheck w in
  let w := emit startUrlChangeCheck w in
  let w := connectWs sessionId w in
  sendWsMessage PLAY_VIDEO (template "null" videoId) w.

(** Modelled from the spec: [changeQueryString] (util/url) is not among the
    sources; it changes the query string of the page without a reload. *)
Definition changeQueryStringVideoId (vid : option string) (w : World) : World :=
  let params := mkLocation (Some (template "undefined" vid))
                           (param_session (window_location w)) in
  mkWorld (this w) params (trace w ++ [changeQueryString params]).

Definition onUrlChange (o n : Location) (w : World) : Outcome :=
  let oldSessionId := param_session o in
  let newSessionId := param_session n in
  if is_some oldSessionId && negb (is_some newSessionId)
  then Done (emit (location_search_assign n) w)
  else match param_v n with
       | Some videoId =>
           let w := sendWsMessage PLAY_VIDEO videoId w in
           match ytPlayer (this w) with
           | Some _ => Done (emit (loadVideoById videoId) w)
           | None => Thrown TypeError w
           end
       | None => Done w
       end.

Definition andThen (o : Outcome) (k : World -> Outcome) : Outcome :=
  match o with
  | Done w => k w
  | Thrown e w => Thrown e w
  end.

(** A call of a method of [this.ytPlayer]: a [TypeError] while there is none. *)
Definition ytPlayer_do (e : Effect) (w : World) : Outcome :=
  match ytPlayer (this w) with
  | Some _ => Done (emit e w)
  | None => Thrown TypeError w
  end.

Definition syncPlayerTime (videoTime margin : float) (w : World) : Outcome :=
  match ytPlayer (this w) with
  | Some p =>
      if differs_more_than videoTime (getCurrentTime p) margin
      then ytPlayer_do (seekTo videoTime true) w
      else Done w
  | None => Thrown TypeError w
  end.

(** Modelled from the spec: [injectVideoQueueElement] (util/yt-html) is not
    among the sources; it appends one entry, which carries the video id, at
    the end of the queue. *)
Definition injectVideoQueueElement (element : list string) (vId : string)
  : list string :=
  element ++ [vId].

Definition populateQueue (videoIds : list string) (w : World) : World :=
  let w := with_this (fun p => mkPlayer (ytPlayer p) (options p) []) w in
  fold_left
    (fun w vId =>
       with_this (fun p =>
         mkPlayer (ytPlayer p) (options p)
                  (injectVideoQueueElement (queueElement p) vId)) w)
    videoIds w.

Definition queueElementClickHandler (vId : string) (w : World) : World :=
  changeQueryStringVideoId (Some vId) w.

Definition queueElementDeleteHandler (vId : string) (w : World) : World :=
  sendWsMessage DELETE_FROM_QUEUE vId w.

(** [parseFloat(data)] for a piece that may be missing: [parseFloat(undefined)]
    is [NaN]. *)
Definition parseFloat_of (data : option string) : float :=
  match data with
  | Some s => parseFloat s
  | None => nan
  end.

(** The [switch] on the command, in the order of its cases. *)
Definition dispatch (playerState : PlayerState) (command : string)
    (data : option string) (w : World) : Outcome :=
  if String.eqb command (toString PLAY) then
    andThen (syncPlayerTime (parseFloat_of data) default_margin w) (fun w =>
    if PlayerState_eqb playerState PAUSED then ytPlayer_do playVideo w else Done w)
  else if String.eqb command (toString PAUSE) then
    andThen (syncPlayerTime (parseFloat_of data) default_margin w) (fun w =>
    if PlayerState_eqb playerState PLAYING then ytPlayer_do pauseVideo w else Done w)
  else if String.eqb command (toString SEEK) then
    ytPlayer_do (seekTo (parseFloat_of data) true) w
  else if String.eqb command (toString PLAY_VIDEO) then
    Done (changeQueryStringVideoId data w)
  else if String.eqb command (toString QUEUE) then
    match data with
    | Some d => Done (populateQueue (split "," d) w)
    | None => Thrown TypeError w                 (* [undefined.split] *)
    end
  else Done w.

(** The body of the [try]: the state of the player is read first. *)
Definition onWsMessage_try (command data : option string) (w : World) : Outcome :=
  match ytPlayer (this w) with
  | None => Thrown TypeError w
  | Some p =>
      match command with
      | Some c => dispatch (getPlayerState p) c data w
      | None => Done w
      end
  end.

(** [const [command, data] = message.split(" ")]: the first two pieces; a
    piece that is not there is [undefined]. *)
Definition onWsMessage (message : string) (w : World) : World :=
  let pieces := split " " message in
  let command := nth_error pieces 0 in
  let data := nth_error pieces 1 in
  try_catch_log (onWsMessage_try command data w).

(** Modelled from the spec: [startUrlChangeCheck] (util/schedule) is not among
    the sources. It is a periodic task that compares the previous observation
    of the location with the current one and invokes its callback on change.
    [o] is the previous observation. *)
Definition urlChangeCheck_tick (o : Location) (w : World) : Outcome :=
  let n := window_location w in
  if Location_eqb o n then Done w else onUrlChange o n w.

(** *** [plugin.ts] *)

Definition Interval_eqb (a b : Interval) : bool :=
  match a, b with
  | syncButton, syncButton | leaveButton, leaveButton
  | removeUpnext, removeUpnext | queueInject, queueInject
  | queueAddButton, queueAddButton => true
  | _, _ => false
  end.

(** What [window.onload] builds: the parameters of the URL, the video and the
    session read from them once, the intervals that run, and the player. *)
Record Page := mkPage {
  urlParams : Location;
  videoId : option string;
  sessionId : option string;
  timers : list Interval;
  world : World
}.

Definition plugin_options : PlayerOptions := mkOptions "http" "127.0.0.1" "8080".

Definition onload (l : Location) : Page :=
  mkPage l (param_v l) (param_session l)
    match param_session l with
    | None => [syncButton; queueAddButton]
    | Some _ => [leaveButton; removeUpnext; queueInject]
    end
    (mkWorld (mkPlayer None plugin_options []) l []).

(** The callback of an interval. Each one starts with a test of the form
    [if ($(selector))]: a jQuery object is an object, whatever it matched,
    so the test passes. *)
Definition callback (fresh : YTPlayer) (i : Interval) (pg : Page) : World :=
  let w := world pg in
  match i with
  | syncButton => emit (injectYtRenderedButton "create-sync-button" "Create Sync") w
  | queueAddButton => emit (injectYtRenderedButton "queue-add-button" "Add to Queue") w
  | leaveButton => emit (injectYtRenderedButton "leave-sync-button" "Leave Sync") w
  | removeUpnext => emit ytHTML_removeUpnext w
  | queueInject =>
      let w := emit injectEmptyQueueShell w in
      create fresh (videoId pg) (sessionId pg) [] w
  end.

Definition clearInterval (i : Interval) (l : list Interval) : list Interval :=
  filter (fun j => negb (Interval_eqb i j)) l.

(** One firing of an interval: nothing when it is not running; else its
    callback, which ends with [clearInterval]. *)
Definition tick (fresh : YTPlayer) (pg : Page) (i : Interval) : Page :=
  if existsb (Interval_eqb i) (timers pg)
  then mkPage (urlParams pg) (videoId pg) (sessionId pg)
              (clearInterval i (timers pg)) (callback fresh i pg)
  else pg.

(** The effects an interval has when it fires. *)
Definition marks (fresh : YTPlayer) (l : Location) (i : Interval) : list Effect :=
  issued (world (onload l)) (callback fresh i (onload l)).

(** The intervals that fire in a sequence of ticks, in the order in which
    they fire, when [running] are the ones that run at its start. *)
Fixpoint fired (running ticks : list Interval) : list Interval :=
  match ticks with
  | [] => []
  | i :: ticks =>
      if existsb (Interval_eqb i) running
      then i :: fired (clearInterval i running) ticks
      else fired running ticks
  end.

(** The click on "Create Sync": [generated] is what
    [WebsocketUtil.generateSessionId()] returns. The assignment to
    [window.location.search] makes the browser load the page again. *)
Definition click_create_sync (generated : string) (pg : Page) : Page :=
  let params := mkLocation (param_v (urlParams pg)) (Some generated) in
  mkPage params (videoId pg) (sessionId pg) (timers pg)
         (emit (location_search_assign params) (world pg)).

(** The click on "Leave Sync". *)
Definition click_leave (pg : Page) : Page :=
  let params := mkLocation (param_v (urlParams pg)) None in
  mkPage params (videoId pg) (sessionId pg) (timers pg)
         (emit (location_search_assign params) (world pg)).

(** The click on "Add to Queue": [current] is what
    [VideoUtil.getCurrentVideo()] reads from the page. *)
Definition click_queue_add (current : Video) (pg : Page) : Page :=
  mkPage (urlParams pg) (videoId pg) (sessionId pg) (timers pg)
         (emit (Store_addElement current) (world pg)).

(** No character of the string is [sep]. *)
Fixpoint free_of (sep : ascii) (s : string) : bool :=
  match s with
  | EmptyString => true
  | String c r => negb (Ascii.eqb c sep) && free_of sep r
  end.

End First.

Module FirstSample.

(** A player of the first version that was created: it is at 10 seconds of
    video [aaaaaaaaaaa] in session [room], in the given state, with the
    given queue. *)
Definition world (state : PlayerState) (queue : list string) : First.World :=
  First.mkWorld
    (First.mkPlayer (Some (mkYTPlayer 10 state)) First.plugin_options queue)
    (mkLocation (Some "aaaaaaaaaaa") (Some "room"))
    [].

(** A page with a video and no session, and the same page in a session. *)
Definition alone : Location := mkLocation (Some "aaaaaaaaaaa") None.
Definition shared : Location := mkLocation (Some "aaaaaaaaaaa") (Some "room").

End FirstSample.

(** ** The earlier class of [player.ts], whole

    The second class [Player] of the file: frames and queue as in the later
    class, no autoplay and no roster; it loads a video itself, from the
    callback of the URL schedule. Its [console.log] lines are left out. *)

Module EarlierClass.

Inductive Effect :=
| seekTo (t : float) (allowSeekAhead : bool)
| playVideo
| pauseVideo
| ws_send (action : Message) (data : Payload)
| onYtNavigate_ (videoId : string) (session : option string)
| loadVideoById (videoId : string)
| changeQueryString (search : Location)
| location_search_assign (l : Location)
| console_error (e : Exception)
| injectEmptyQueueShell
| new_YT_Player (videoId : string)
| startSeekSchedule
| startUrlChangeSchedule
| startQueueStoreSchedule
| io_connect (url : string).

Record Player := mkPlayer {
  sessionId : option string;
  ytPlayer : option YTPlayer;                 (* [null] is [None] *)
  options : PlayerOptions;
  queueItemsElement : list QueueElement
}.

Record World := mkWorld {
  this : Player;
  window_location : Location;
  trace : list Effect
}.

Inductive Outcome :=
| Done (w : World)
| Thrown (e : Exception) (w : World).

Definition emit (e : Effect) (w : World) : World :=
  mkWorld (this w) (window_location w) (trace w ++ [e]).

Definition with_this (f : Player -> Player) (w : World) : World :=
  mkWorld (f (this w)) (window_location w) (trace w).

Definition set_queueItemsElement (q : list QueueElement) (p : Player) : Player :=
  mkPlayer (sessionId p) (ytPlayer p) (options p) q.

Definition andThen (o : Outcome) (k : World -> Outcome) : Outcome :=
  match o with
  | Done w => k w
  | Thrown e w => Thrown e w
  end.

Definition try_catch_log (o : Outcome) : World :=
  match o with
  | Done w => w
  | Thrown e w => emit (console_error e) w
  end.

Definition issued (w w' : World) : list Effect :=
  skipn (List.length (trace w)) (trace w').

Definition ytPlayer_do (e : Effect) (w : World) : Outcome :=
  match ytPlayer (this w) with
  | Some _ => Done (emit e w)
  | None => Thrown TypeError w
  end.

(** [fresh] is the player [new YT.Player] returns. *)
Definition create (fresh : YTPlayer) (videoId sessionId : string) (w : World) : World :=
  if is_some (ytPlayer (this w)) then w
  else
    let w := emit injectEmptyQueueShell w in
    let w := with_this (set_queueItemsElement []) w in
    let w := with_this (fun p =>
               mkPlayer (EarlierClass.sessionId p) (Some fresh) (options p)
                        (queueItemsElement p)) w in
    emit (new_YT_Player videoId) w.

Definition sendWsMessage (type : Message) (data : Payload) (w : World) : World :=
  emit (ws_send type data) w.

Definition sendWsTimeMessage (type : Message) (w : World) : Outcome :=
  match ytPlayer (this w) with
  | Some p => Done (sendWsMessage type (seconds (getCurrentTime p)) w)
  | None => Thrown TypeError w
  end.

Definition sendWsRequestToAddToQueue (video : Video) (w : World) : World :=
  sendWsMessage ADD_TO_QUEUE (entry video) w.

Definition connectWs (sessionId : string) (w : World) : World :=
  let w := with_this (fun p =>
             mkPlayer (Some sessionId) (ytPlayer p) (options p) (queueItemsElement p)) w in
  let o := options (this w) in
  emit (io_connect (protocol o ++ "://" ++ host o ++ ":" ++ port o ++ "/" ++ sessionId)) w.

Definition onReady (sessionId : string) (w : World) : World :=
  let w := emit startSeekSchedule w in
  let w := emit startUrlChangeSchedule w in
  let w := emit startQueueStoreSchedule w in
  connectWs sessionId w.

Definition onStateChange (state : PlayerState) (w : World) : Outcome :=
  match state with
  | PLAYING => sendWsTimeMessage PLAY w
  | PAUSED => sendWsTimeMessage PAUSE w
  | _ => Done w
  end.

Definition onUrlChange (o n : Location) (w : World) : Outcome :=
  let oldSessionId := param_session o in
  let newSessionId := param_session n in
  if is_some oldSessionId && negb (is_some newSessionId)
  then Done (emit (location_search_assign n) w)
  else match param_v n with
       | Some videoId =>
           let w := sendWsMessage PLAY_VIDEO (text videoId) w in
           ytPlayer_do (loadVideoById videoId) w
       | None => Done w
       end.

Definition onPlayerSeek (w : World) : Outcome :=
  sendWsTimeMessage SEEK w.

(** [video] is what [VideoUtil.getCurrentVideo()] reads from the page. *)
Definition onWsConnected (video : Video) (w : World) : World :=
  let w := sendWsRequestToAddToQueue video w in
  sendWsMessage PLAY_VIDEO (text (videoId video)) w.

(** Modelled from the spec: [injectVideoQueueElement] (util/yt-html) is not
    among the sources; it appends one entry at the end of the queue, which
    carries the [videoId] in an attribute and is marked [selected] when
    asked. *)
Definition injectVideoQueueElement (element : list QueueElement) (selected : bool)
    (videoId title byline : string) : list QueueElement :=
  element ++ [mkElement videoId title byline selected].

Definition addToQueue (video : Video) (selected : bool) (w : World) : World :=
  with_this (fun p =>
    set_queueItemsElement
      (injectVideoQueueElement (queueItemsElement p) selected
         (videoId video) (title video) (byline video)) p) w.

(** The queue is emptied first. Without [data.videos] the call of [forEach]
    throws; without [data.video] the test of the first video throws, at
    [data.video.videoId], and an empty list of videos passes. *)
Definition populateQueue (data : QueuePayload) (w : World) : Outcome :=
  let w := with_this (set_queueItemsElement []) w in
  match data with
  | whole data =>
      Done (fold_left
              (fun w v =>
                 addToQueue v
                   match video data with
                   | Some sel => String.eqb (videoId v) (videoId sel)
                   | None => false
                   end w)
              (videos data) w)
  | without_video [] => Done w
  | without_video (_ :: _) => Thrown TypeError w
  | without_videos => Thrown TypeError w
  end.

Definition removeFromQueue (video : Video + string) (w : World) : Outcome :=
  match jq_find has_videoId (template_videoId video) with
  | Some matches =>
      Done (with_this (fun p =>
              set_queueItemsElement (jq_remove matches (queueItemsElement p)) p) w)
  | None => Thrown UnrecognizedExpression w
  end.

(** Every entry is deselected before the entries to select are looked for. *)
Definition selectQueueElement (videoId : string) (w : World) : Outcome :=
  let w := with_this (fun p =>
             set_queueItemsElement (map removeAttr_selected (queueItemsElement p)) p) w in
  match jq_find has_videoId videoId with
  | Some matches =>
      Done (with_this (fun p =>
              set_queueItemsElement
                (map (attr_selected_set matches) (queueItemsElement p)) p) w)
  | None => Thrown UnrecognizedExpression w
  end.

(** Modelled from the spec: [URLUtil.changeQueryString] (util/url) is not
    among the sources; as the comment of the method says, the video id in
    the URL changes without a reload of the page. *)
Definition changeQueryStringVideoId (videoId : string) (w : World) : Outcome :=
  let params := mkLocation (Some videoId) (param_session (window_location w)) in
  let w := mkWorld (this w) params (trace w ++ [changeQueryString params]) in
  selectQueueElement videoId w.

Definition queueElementClickHandler (videoId : string) (w : World) : Outcome :=
  let w := emit (onYtNavigate_ videoId (sessionId (this w))) w in
  changeQueryStringVideoId videoId w.

Definition queueElementDeleteHandler (videoId : string) (w : World) : World :=
  sendWsMessage REMOVE_FROM_QUEUE (text videoId) w.

Definition syncPlayerTime (videoTime margin : float) (w : World) : Outcome :=
  match ytPlayer (this w) with
  | Some p =>
      if differs_more_than videoTime (getCurrentTime p) margin
      then ytPlayer_do (seekTo videoTime true) w
      else Done w
  | None => Thrown TypeError w
  end.

Definition onWsMessage_try (message : Frame) (w : World) : Outcome :=
  match message with
  | Unparseable => Thrown SyntaxError w
  | Null => Thrown TypeError w
  | _ =>
      match ytPlayer (this w) with
      | None => Thrown TypeError w
      | Some p =>
          let playerState := getPlayerState p in
          match message with
          | Play data =>
              andThen (syncPlayerTime (parseFloat data) default_margin w) (fun w =>
              if PlayerState_eqb playerState PAUSED
              then ytPlayer_do playVideo w
              else Done w)
          | Pause data =>
              andThen (syncPlayerTime (parseFloat data) default_margin w) (fun w =>
              if PlayerState_eqb playerState PLAYING
              then ytPlayer_do pauseVideo w
              else Done w)
          | Seek data => ytPlayer_do (seekTo (parseFloat data) true) w
          | PlayVideo data => changeQueryStringVideoId data w
          | Queue data => populateQueue (whole data) w
          | QueueWithoutVideo videos => populateQueue (without_video videos) w
          | QueueWithoutVideos => populateQueue without_videos w
          | AddToQueue data => Done (addToQueue data false w)
          | RemoveFromQueue data => removeFromQueue (inl data) w
          | RemoveFromQueueText data => removeFromQueue (inr data) w
          | _ => Done w
          end
      end
  end.

Definition onWsMessage (message : Frame) (w : World) : World :=
  try_catch_log (onWsMessage_try message w).

(** The URL schedule, as for the later class: [o] is its previous
    observation of the location. *)
Definition urlChangeSchedule_tick (o : Location) (w : World) : Outcome :=
  let n := window_location w in
  if Location_eqb o n then Done w else onUrlChange o n w.

End EarlierClass.

(** An effect of the earlier class, as the later class names it; [None] for
    the two the later class does not have. *)
Definition in_later (e : EarlierClass.Effect) : option Effect :=
  match e with
  | EarlierClass.seekTo t b => Some (seekTo t b)
  | EarlierClass.playVideo => Some playVideo
  | EarlierClass.pauseVideo => Some pauseVideo
  | EarlierClass.ws_send a d => Some (ws_send a d)
  | EarlierClass.onYtNavigate_ v s => Some (onYtNavigate_ v s)
  | EarlierClass.loadVideoById _ => None
  | EarlierClass.changeQueryString _ => None
  | EarlierClass.location_search_assign l => Some (location_search_assign l)
  | EarlierClass.console_error e => Some (console_error e)
  | EarlierClass.injectEmptyQueueShell => Some injectEmptyQueueShell
  | EarlierClass.new_YT_Player v => Some (new_YT_Player v)
  | EarlierClass.startSeekSchedule => Some startSeekSchedule
  | EarlierClass.startUrlChangeSchedule => Some startUrlChangeSchedule
  | EarlierClass.startQueueStoreSchedule => Some startQueueStoreSchedule
  | EarlierClass.io_connect u => Some (io_connect u)
  end.

(** The two classes in the same state, as far as the earlier one has one. *)
Definition same_state (e : EarlierClass.World) (w : World) : Prop :=
  EarlierClass.sessionId (EarlierClass.this e) = sessionId (this w)
  /\ EarlierClass.ytPlayer (EarlierClass.this e) = ytPlayer (this w)
  /\ EarlierClass.options (EarlierClass.this e) = options (this w)
  /\ EarlierClass.queueItemsElement (EarlierClass.this e) = queueItemsElement (this w).

Module EarlierSample.

(** A player of the earlier class in the state of [Sample.world]. *)
Definition world (state : PlayerState) (queue : list QueueElement) : EarlierClass.World :=
  EarlierClass.mkWorld
    (EarlierClass.mkPlayer (Some "room") (Some (mkYTPlayer 10 state)) Sample.opts queue)
    (mkLocation (Some "aaaaaaaaaaa") (Some "room"))
    [].

End EarlierSample.

(** * Properties *)

(** ** The reader of numbers, on samples *)

Example parseFloat_plain : parseFloat "12.5" = 12.5%float.
Proof. reflexivity. Qed.

Example parseFloat_forms :
  map parseFloat ["  42"; "-0.25"; ".5"; "5."; "1e3"; "2.5e-1x"; "7e"; "+Infinity"; "0x10"]
  = [42; -0.25; 0.5; 5; 1000; 0.25; 7; infinity; 0]%float.
Proof. reflexivity. Qed.

Example parseFloat_not_a_number :
  map (fun s => PrimFloat.is_nan (parseFloat s)) ["abc"; ""; "."; "-"; "e5"; "NaN"; "infinity"]
  = [true; true; true; true; true; true; true].
Proof. reflexivity. Qed.

(** ** Facts on binary64 *)

Section FloatFacts.

(** Rounding to nearest is blind to the sign. *)
Lemma binary_round_abs s m e :
  SFabs (binary_round prec emax s m e) = SFabs (binary_round prec emax false m e).
Proof.
  unfold binary_round, binary_round_aux.
  destruct (shl_align m e _) as [mz ez].
  destruct (shr_fexp prec emax (Zpos mz) ez loc_Exact) as [mrs e'].
  destruct (shr_fexp prec emax _ e' loc_Exact) as [mrs' e''].
  destruct (shr_m mrs'); [reflexivity | | reflexivity].
  destruct (Z.leb e'' _); reflexivity.
Qed.

Lemma binary_normalize_abs_opp m e :
  SFabs (binary_normalize prec emax (- m) e false)
  = SFabs (binary_normalize prec emax m e false).
Proof.
  destruct m as [|p|p]; simpl; [reflexivity | | symmetry]; apply binary_round_abs.
Qed.

Lemma SFsub_abs_sym x y :
  SFabs (SFsub prec emax x y) = SFabs (SFsub prec emax y x).
Proof.
  destruct x as [sx|sx| |sx mx ex], y as [sy|sy| |sy my ey];
    try (destruct sx, sy; reflexivity); try reflexivity.
  cbv [SFsub].
  rewrite (Z.min_comm ey ex), <- binary_normalize_abs_opp.
  f_equal. f_equal. lia.
Qed.

(** [Math.abs(a - b)] and [Math.abs(b - a)] are the same number. *)
Lemma abs_sub_sym (a b : float) :
  PrimFloat.abs (PrimFloat.sub a b) = PrimFloat.abs (PrimFloat.sub b a).
Proof.
  apply Prim2SF_inj. rewrite !abs_spec, !sub_spec. apply SFsub_abs_sym.
Qed.

Lemma SFcompare_refl x : x <> S754_nan -> SFcompare x x = Some Eq.
Proof.
  destruct x as [s|s| |s m e]; simpl; intros H; try congruence.
  - destruct s; reflexivity.
  - rewrite Z.compare_refl, Pos.compare_cont_refl. destruct s; reflexivity.
Qed.

(** There is one [NaN]. *)
Lemma is_nan_eq f : PrimFloat.is_nan f = true -> f = nan.
Proof.
  unfold is_nan. rewrite eqb_spec. unfold SFeqb. intros H.
  rewrite <- (SF2Prim_Prim2SF f).
  destruct (Prim2SF f) eqn:E; try reflexivity;
    rewrite SFcompare_refl in H by congruence; discriminate.
Qed.

(** [Math.abs(NaN - p) > margin] is false. *)
Lemma nan_never_differs p margin : differs_more_than nan p margin = false.
Proof.
  unfold differs_more_than. rewrite ltb_spec, abs_spec, sub_spec.
  change (Prim2SF nan) with S754_nan.
  unfold SF64sub. simpl. unfold SFltb.
  destruct (Prim2SF margin); reflexivity.
Qed.

End FloatFacts.

(** ** Traces *)

Lemma skipn_length_app {A : Type} (l l' : list A) :
  skipn (List.length l) (l ++ l') = l'.
Proof. induction l as [|a l IH]; simpl; auto. Qed.

Lemma issued_app w w' l : trace w' = trace w ++ l -> issued w w' = l.
Proof. unfold issued. intros ->. apply skipn_length_app. Qed.

Lemma issued_none w w' : trace w' = trace w -> issued w w' = [].
Proof. intros H. apply issued_app. now rewrite app_nil_r. Qed.

Lemma issued_emit w e : issued w (emit e w) = [e].
Proof. now apply issued_app. Qed.

Lemma issued_emit2 w e1 e2 : issued w (emit e2 (emit e1 w)) = [e1; e2].
Proof. apply issued_app. simpl. now rewrite <- app_assoc. Qed.

Create HintDb traces.
#[local] Hint Resolve issued_none issued_emit issued_emit2 : traces.

(** ** The handler, whatever the state *)

Lemma onWsMessage_known w p m :
  ytPlayer (this w) = Some p -> m <> Unparseable -> m <> Null ->
  onWsMessage_try m w =
    match m with
    | Play data =>
        syncPlayerTime (parseFloat data) default_margin w >>= fun w =>
        if PlayerState_eqb (getPlayerState p) PAUSED then ytPlayer_do playVideo w else Done w
    | Pause data =>
        syncPlayerTime (parseFloat data) default_margin w >>= fun w =>
        if PlayerState_eqb (getPlayerState p) PLAYING then ytPlayer_do pauseVideo w else Done w
    | Seek data => ytPlayer_do (seekTo (parseFloat data) true) w
    | Autoplay data => Done (setAutoplay data false w)
    | PlayVideo data => navigateToVideo data w
    | Queue data => populateQueue (whole data) w
    | QueueWithoutVideo videos => populateQueue (without_video videos) w
    | QueueWithoutVideos => populateQueue without_videos w
    | AddToQueue data => Done (addToQueue data false w)
    | RemoveFromQueue data => removeFromQueue (inl data) w
    | RemoveFromQueueText data => removeFromQueue (inr data) w
    | Clients data => Done (addClients data w)
    | ClientConnect data => Done (addClients [data] w)
    | ClientDisconnect data => removeClient data w
    | _ => Done w
    end.
Proof.
  intros H U N. unfold onWsMessage_try. rewrite H.
  destruct m; try reflexivity; congruence.
Qed.

(** ** The selectors *)

Lemma set_queueItemsElement_same p :
  set_queueItemsElement (queueItemsElement p) p = p.
Proof. now destruct p. Qed.

Lemma selecting_map id (q : list QueueElement) :
  map (attr_selected_set (has_videoId id)) (map removeAttr_selected q) = selecting id q.
Proof.
  unfold selecting. rewrite map_map. apply map_ext. intros e.
  unfold attr_selected_set, removeAttr_selected, has_videoId. simpl.
  now destruct (String.eqb (attr_videoId e) id).
Qed.

(** The two ends of [selectQueueElement]. *)
Lemma selectQueueElement_outcome id w :
  selectQueueElement id w =
    if selector_safe id
    then Done (with_this (fun p =>
                 set_queueItemsElement (selecting id (queueItemsElement p)) p) w)
    else Thrown UnrecognizedExpression
           (with_this (fun p =>
              set_queueItemsElement (map removeAttr_selected (queueItemsElement p)) p) w).
Proof.
  unfold selectQueueElement, jq_find. cbn zeta.
  destruct (selector_safe id); [|reflexivity].
  unfold with_this. cbn [this queueItemsElement set_queueItemsElement].
  now rewrite selecting_map.
Qed.

(** The two ends of [navigateToVideo]. *)
Lemma navigateToVideo_outcome id w :
  navigateToVideo id w =
    if selector_safe id
    then Done (mkWorld
                 (set_queueItemsElement (selecting id (queueItemsElement (this w))) (this w))
                 (window_location w)
                 (trace w
                  ++ (if differs_from (param_v (window_location w)) id
                      then [onYtNavigate_ id (sessionId (this w))] else [])
                  ++ [removeUpnext; removeRelated]))
    else Thrown UnrecognizedExpression
           (with_this (fun p =>
              set_queueItemsElement (map removeAttr_selected (queueItemsElement p)) p) w).
Proof.
  unfold navigateToVideo. rewrite selectQueueElement_outcome.
  destruct (selector_safe id); [|reflexivity].
  cbn [andThen]. cbn zeta. cbn [with_this window_location this].
  destruct (differs_from _ _); unfold emit; simpl; now rewrite <- ?app_assoc.
Qed.

Lemma removeFromQueue_outcome video w :
  removeFromQueue video w =
    if selector_safe (template_videoId video)
    then Done (with_this (fun p =>
                 set_queueItemsElement
                   (filter (fun e => negb (String.eqb (attr_videoId e) (template_videoId video)))
                           (queueItemsElement p)) p) w)
    else Thrown UnrecognizedExpression w.
Proof. unfold removeFromQueue, jq_find. now destruct (selector_safe _). Qed.

Lemma removeClient_outcome id w :
  removeClient id w =
    if selector_safe id
    then Done (describe_clients
                 (with_this (fun p =>
                    set_clients (filter (other_than id) (clients p))
                      (set_roomInfoElement
                         (mkRoomInfo (description (roomInfoElement p))
                            (autoplayToggle (roomInfoElement p))
                            (filter (other_than id) (participants (roomInfoElement p)))) p)) w))
    else Thrown UnrecognizedExpression w.
Proof. unfold removeClient, jq_find. now destruct (selector_safe id). Qed.

(** ** What a throw leaves behind *)

(** A throw inside the handler comes before anything was issued; of the
    player, the queue in the page alone may have changed by then. *)
Lemma onWsMessage_try_thrown m w e w' :
  onWsMessage_try m w = Thrown e w' ->
  trace w' = trace w
  /\ window_location w' = window_location w
  /\ this w' = set_queueItemsElement (queueItemsElement (this w')) (this w).
Proof.
  assert (Same : trace w = trace w /\ window_location w = window_location w
                 /\ this w = set_queueItemsElement (queueItemsElement (this w)) (this w)).
  { now rewrite set_queueItemsElement_same. }
  unfold onWsMessage_try.
  destruct m; try (intros [= _ <-]; exact Same);
    destruct (ytPlayer (this w)) as [p|] eqn:H; try (intros [= _ <-]; exact Same);
    try discriminate;
    rewrite ?navigateToVideo_outcome, ?removeFromQueue_outcome, ?removeClient_outcome;
    unfold syncPlayerTime, ytPlayer_do, populateQueue; rewrite ?H; cbn zeta;
    repeat match goal with
           | |- context [if ?b then _ else _] => destruct b; simpl; rewrite ?H; simpl
           | |- context [match ?l with [] => _ | _ :: _ => _ end] => destruct l
           end;
    try discriminate; intros [= _ <-]; try exact Same; now repeat split.
Qed.

Lemma populate_fold (sel : Video -> bool) (vs : list Video) (w : World) :
  fold_left (fun w v => addToQueue v (sel v) w) vs w
  = with_this (fun p =>
      set_queueItemsElement
        (queueItemsElement p
         ++ map (fun v => mkElement (videoId v) (title v) (byline v) (sel v)) vs) p) w.
Proof.
  revert w. induction vs as [|v vs IH]; intros [[s y o q r a c] l t]; simpl.
  - unfold with_this, set_queueItemsElement. simpl. now rewrite app_nil_r.
  - rewrite IH. unfold addToQueue, with_this, set_queueItemsElement,
      injectYtPlaylistPanelVideoRendererElement. simpl.
    now rewrite <- app_assoc.
Qed.

Lemma populateQueue_rendered data w :
  populateQueue (whole data) w
  = Done (with_this (set_queueItemsElement (rendered data)) w).
Proof.
  unfold populateQueue. cbn zeta.
  rewrite (populate_fold (snapshot_selects data)). now destruct w.
Qed.

Lemma addClients_fold (known : list string) (cs : list Client) (w : World) :
  ytPlayer (this
    (fold_left
       (fun w c =>
          if existsb (String.eqb (socketId c)) known then w
          else
            let w := with_this (fun p =>
                       set_roomInfoElement
                         (injectYtLiveChatParticipantRenderer (roomInfoElement p) c) p) w in
            with_this (fun p => set_clients (clients p ++ [c]) p) w)
       cs w))
  = ytPlayer (this w).
Proof.
  revert w. induction cs as [|c cs IH]; intros w; simpl; [reflexivity|].
  rewrite IH. now destruct (existsb _ known).
Qed.

Lemma addClients_ytPlayer cs w :
  ytPlayer (this (addClients cs w)) = ytPlayer (this w).
Proof.
  unfold addClients. cbn zeta.
  change (ytPlayer (this (describe_clients ?x))) with (ytPlayer (this x)).
  apply addClients_fold.
Qed.

Lemma setAutoplay_ytPlayer b force w :
  ytPlayer (this (setAutoplay b force w)) = ytPlayer (this w).
Proof. unfold setAutoplay. now destruct (_ && _). Qed.

(** ** What a method leaves behind *)

Lemma addClients_fold_shape (known : list string) (cs : list Client) (w : World) :
  fold_left
    (fun w c =>
       if existsb (String.eqb (socketId c)) known then w
       else
         let w := with_this (fun p =>
                    set_roomInfoElement
                      (injectYtLiveChatParticipantRenderer (roomInfoElement p) c) p) w in
         with_this (fun p => set_clients (clients p ++ [c]) p) w)
    cs w
  = with_this (joined (filter (unknown_to known) cs)) w.
Proof.
  revert w. induction cs as [|c cs IH]; intros [[s y o q [d g ps] a l] loc t].
  - unfold with_this, joined, set_clients, set_roomInfoElement. simpl.
    now rewrite !app_nil_r.
  - cbn [fold_left filter]. unfold unknown_to at 1.
    destruct (existsb (String.eqb (socketId c)) known); cbn [negb]; rewrite IH.
    + reflexivity.
    + unfold with_this, joined, set_clients, set_roomInfoElement,
        injectYtLiveChatParticipantRenderer. simpl.
      now rewrite <- !app_assoc.
Qed.

Lemma addClients_shape (cs : list Client) (w : World) :
  addClients cs w
  = describe_clients
      (with_this (joined (filter (unknown_to (map socketId (clients (this w)))) cs)) w).
Proof. unfold addClients. cbn zeta. now rewrite addClients_fold_shape. Qed.

Lemma trace_setAutoplay v force w :
  trace (setAutoplay v force w)
  = trace w ++ (if Bool.eqb (autoplay (this w)) v && negb force then []
                else [ws_send AUTOPLAY (flag v)]).
Proof.
  unfold setAutoplay. destruct (_ && _); simpl; [now rewrite app_nil_r | reflexivity].
Qed.

Lemma onWsMessage_without_player m w :
  ytPlayer (this w) = None ->
  onWsMessage m w
  = emit (console_error match m with Unparseable => SyntaxError | _ => TypeError end) w.
Proof.
  intros H. unfold onWsMessage, onWsMessage_try. rewrite H. now destruct m.
Qed.

(** ** The handler on a running player *)

Section Running.

Variables (w : World) (p : YTPlayer).
Hypothesis running : ytPlayer (this w) = Some p.

(** The first lines of the handler pass, and the [case] is entered. *)
Ltac dispatch :=
  unfold onWsMessage, onWsMessage_try; rewrite running; try reflexivity.

Ltac margin_test :=
  unfold onWsMessage, onWsMessage_try, syncPlayerTime, ytPlayer_do;
  rewrite running; cbn zeta;
  destruct (differs_more_than _ _ _); rewrite ?running; simpl;
  destruct (PlayerState_eqb _ _); simpl; rewrite ?running; reflexivity.

Lemma onWsMessage_Play data :
  onWsMessage (Play data) w =
    let w1 := if differs_more_than (parseFloat data) (getCurrentTime p) default_margin
              then emit (seekTo (parseFloat data) true) w else w in
    if PlayerState_eqb (getPlayerState p) PAUSED then emit playVideo w1 else w1.
Proof. margin_test. Qed.

Lemma onWsMessage_Pause data :
  onWsMessage (Pause data) w =
    let w1 := if differs_more_than (parseFloat data) (getCurrentTime p) default_margin
              then emit (seekTo (parseFloat data) true) w else w in
    if PlayerState_eqb (getPlayerState p) PLAYING then emit pauseVideo w1 else w1.
Proof. margin_test. Qed.

Lemma onWsMessage_Seek data :
  onWsMessage (Seek data) w = emit (seekTo (parseFloat data) true) w.
Proof. unfold ytPlayer_do. dispatch. unfold ytPlayer_do. now rewrite running. Qed.

Lemma onWsMessage_Autoplay v :
  onWsMessage (Autoplay v) w = setAutoplay v false w.
Proof. dispatch. Qed.

Lemma onWsMessage_PlayVideo id :
  onWsMessage (PlayVideo id) w = try_catch_log (navigateToVideo id w).
Proof. dispatch. Qed.

Lemma onWsMessage_Queue data :
  onWsMessage (Queue data) w = with_this (set_queueItemsElement (rendered data)) w.
Proof. dispatch. now rewrite populateQueue_rendered. Qed.

Lemma onWsMessage_AddToQueue v :
  onWsMessage (AddToQueue v) w = addToQueue v false w.
Proof. dispatch. Qed.

Lemma onWsMessage_RemoveFromQueue v :
  onWsMessage (RemoveFromQueue v) w = try_catch_log (removeFromQueue (inl v) w).
Proof. dispatch. Qed.

Lemma onWsMessage_RemoveFromQueueText id :
  onWsMessage (RemoveFromQueueText id) w = try_catch_log (removeFromQueue (inr id) w).
Proof. dispatch. Qed.

Lemma onWsMessage_Clients cs :
  onWsMessage (Clients cs) w = addClients cs w.
Proof. dispatch. Qed.

Lemma onWsMessage_ClientConnect c :
  onWsMessage (ClientConnect c) w = addClients [c] w.
Proof. dispatch. Qed.

Lemma onWsMessage_ClientDisconnect id :
  onWsMessage (ClientDisconnect id) w = try_catch_log (removeClient id w).
Proof. dispatch. Qed.

Lemma issued_Play data :
  issued w (onWsMessage (Play data) w) =
    (if differs_more_than (parseFloat data) (getCurrentTime p) default_margin
     then [seekTo (parseFloat data) true] else [])
    ++ (if PlayerState_eqb (getPlayerState p) PAUSED then [playVideo] else []).
Proof.
  rewrite onWsMessage_Play. cbn zeta.
  destruct (differs_more_than _ _ _), (PlayerState_eqb _ _); simpl;
    auto with traces.
Qed.

(** The queue changes when the confirmation comes in. *)
Lemma queue_changes_on_confirmation v :
  queueItemsElement (this (onWsMessage (AddToQueue v) w))
  = queueItemsElement (this w) ++ [mkElement (videoId v) (title v) (byline v) false]
  /\ (selector_safe (videoId v) = true ->
      queueItemsElement (this (onWsMessage (RemoveFromQueue v) w))
      = filter (fun e => negb (String.eqb (attr_videoId e) (videoId v)))
               (queueItemsElement (this w))).
Proof.
  rewrite onWsMessage_AddToQueue, onWsMessage_RemoveFromQueue, removeFromQueue_outcome.
  cbn [template_videoId]. split; [reflexivity|]. now intros ->.
Qed.

(** The effects of the handler, case by case. *)
Lemma issued_onWsMessage m :
  issued w (onWsMessage m w) =
    match m with
    | Unparseable => [console_error SyntaxError]
    | Null => [console_error TypeError]
    | Play data =>
        (if differs_more_than (parseFloat data) (getCurrentTime p) default_margin
         then [seekTo (parseFloat data) true] else [])
        ++ (if PlayerState_eqb (getPlayerState p) PAUSED then [playVideo] else [])
    | Pause data =>
        (if differs_more_than (parseFloat data) (getCurrentTime p) default_margin
         then [seekTo (parseFloat data) true] else [])
        ++ (if PlayerState_eqb (getPlayerState p) PLAYING then [pauseVideo] else [])
    | Seek data => [seekTo (parseFloat data) true]
    | Autoplay v =>
        if Bool.eqb (autoplay (this w)) v then [] else [ws_send AUTOPLAY (flag v)]
    | PlayVideo id =>
        if selector_safe id
        then (if differs_from (param_v (window_location w)) id
              then [onYtNavigate_ id (sessionId (this w))] else [])
             ++ [removeUpnext; removeRelated]
        else [console_error UnrecognizedExpression]
    | RemoveFromQueue v =>
        if selector_safe (videoId v) then [] else [console_error UnrecognizedExpression]
    | ClientDisconnect id =>
        if selector_safe id then [] else [console_error UnrecognizedExpression]
    | QueueWithoutVideo (_ :: _) | QueueWithoutVideos => [console_error TypeError]
    | _ => []
    end.
Proof.
  destruct m as [ | |d|d|d|v|id|data|v|v|cs|c|id| |vs| |id].
  - apply (issued_emit w).
  - apply (issued_emit w).
  - apply issued_Play.
  - rewrite onWsMessage_Pause. cbn zeta.
    destruct (differs_more_than _ _ _), (PlayerState_eqb _ _); simpl; auto with traces.
  - rewrite onWsMessage_Seek. apply issued_emit.
  - rewrite onWsMessage_Autoplay. apply issued_app.
    rewrite trace_setAutoplay. now rewrite andb_true_r.
  - rewrite onWsMessage_PlayVideo, navigateToVideo_outcome.
    destruct (selector_safe id); cbn [try_catch_log].
    + now apply issued_app.
    + now apply issued_app.
  - rewrite onWsMessage_Queue. now apply issued_none.
  - rewrite onWsMessage_AddToQueue. now apply issued_none.
  - rewrite onWsMessage_RemoveFromQueue, removeFromQueue_outcome. cbn [template_videoId].
    destruct (selector_safe (videoId v)); cbn [try_catch_log];
      [now apply issued_none | apply issued_emit].
  - rewrite onWsMessage_Clients, addClients_shape. now apply issued_none.
  - rewrite onWsMessage_ClientConnect, addClients_shape. now apply issued_none.
  - rewrite onWsMessage_ClientDisconnect, removeClient_outcome.
    destruct (selector_safe id); cbn [try_catch_log];
      [now apply issued_none | apply issued_emit].
  - dispatch. now apply issued_none.
  - dispatch. destruct vs; cbn; [now apply issued_none | now apply issued_app].
  - dispatch. now apply issued_app.
  - rewrite onWsMessage_RemoveFromQueueText. now apply issued_none.
Qed.

(** The player record after the handler, case by case. *)
Lemma this_onWsMessage m :
  this (onWsMessage m w) =
    match m with
    | Autoplay v => this (setAutoplay v false w)
    | PlayVideo id =>
        set_queueItemsElement
          (if selector_safe id then selecting id (queueItemsElement (this w))
           else map removeAttr_selected (queueItemsElement (this w)))
          (this w)
    | Queue data => set_queueItemsElement (rendered data) (this w)
    | QueueWithoutVideo _ | QueueWithoutVideos => set_queueItemsElement [] (this w)
    | AddToQueue v => this (addToQueue v false w)
    | RemoveFromQueue v =>
        if selector_safe (videoId v)
        then set_queueItemsElement
               (filter (fun e => negb (String.eqb (attr_videoId e) (videoId v)))
                       (queueItemsElement (this w))) (this w)
        else this w
    | RemoveFromQueueText _ =>
        set_queueItemsElement
          (filter (fun e => negb (String.eqb (attr_videoId e) "undefined"))
                  (queueItemsElement (this w))) (this w)
    | Clients cs => this (addClients cs w)
    | ClientConnect c => this (addClients [c] w)
    | ClientDisconnect id =>
        if selector_safe id
        then set_roomInfoElement
               (mkRoomInfo (connected (List.length (filter (other_than id) (clients (this w)))))
                  (autoplayToggle (roomInfoElement (this w)))
                  (filter (other_than id) (participants (roomInfoElement (this w)))))
               (set_clients (filter (other_than id) (clients (this w))) (this w))
        else this w
    | _ => this w
    end.
Proof.
  destruct m as [ | |d|d|d|v|id|data|v|v|cs|c|id| |vs| |id];
    rewrite ?onWsMessage_Play, ?onWsMessage_Pause, ?onWsMessage_Seek,
      ?onWsMessage_Autoplay, ?onWsMessage_PlayVideo, ?onWsMessage_Queue,
      ?onWsMessage_AddToQueue, ?onWsMessage_RemoveFromQueue,
      ?onWsMessage_RemoveFromQueueText, ?onWsMessage_Clients,
      ?onWsMessage_ClientConnect, ?onWsMessage_ClientDisconnect,
      ?navigateToVideo_outcome, ?removeFromQueue_outcome, ?removeClient_outcome;
    try reflexivity.
  - cbn zeta. now destruct (differs_more_than _ _ _), (PlayerState_eqb _ _).
  - cbn zeta. now destruct (differs_more_than _ _ _), (PlayerState_eqb _ _).
  - now destruct (selector_safe id).
  - cbn [template_videoId]. now destruct (selector_safe (videoId v)).
  - now destruct (selector_safe id).
  - dispatch.
  - dispatch. now destruct vs.
  - dispatch.
Qed.

End Running.

(** No inbound frame replaces or drops the player. *)
Lemma onWsMessage_ytPlayer m w :
  ytPlayer (this (onWsMessage m w)) = ytPlayer (this w).
Proof.
  destruct (ytPlayer (this w)) as [p|] eqn:H.
  - rewrite (this_onWsMessage w p H m).
    destruct m; rewrite ?addClients_ytPlayer, ?setAutoplay_ytPlayer; try exact H;
      try (destruct (selector_safe _); exact H).
  - now rewrite (onWsMessage_without_player m w H).
Qed.

Lemma history_ytPlayer (history : list Frame) (w : World) :
  ytPlayer (this (fold_left (fun w m => onWsMessage m w) history w))
  = ytPlayer (this w).
Proof.
  revert w. induction history as [|m history IH]; intros w; simpl; [reflexivity|].
  now rewrite IH, onWsMessage_ytPlayer.
Qed.
(** ** Inbound [PLAY] and the margin *)

(** A seek in the trace of a PLAY or a PAUSE is the one of the margin test. *)
Lemma seek_among (c s : bool) (t t' : float) (b : bool) (e : Effect) :
  is_seekTo e = false ->
  In (seekTo t' b) ((if c then [seekTo t true] else []) ++ (if s then [e] else []))
  <-> c = true /\ t' = t /\ b = true.
Proof.
  intros Ne. rewrite in_app_iff. split.
  - intros [HIn|HIn].
    + destruct c; [|contradiction]. destruct HIn as [[= -> ->]|[]]. auto.
    + destruct s; [|contradiction]. destruct HIn as [E|[]]. subst e. discriminate Ne.
  - intros (-> & -> & ->). left. now left.
Qed.

(** C1. For an inbound PLAY(t) and a player at position p, the handler issues
    a seek to t exactly when |p - t| > 1.0 in binary64 arithmetic; it issues
    no other seek; and at |p - t| = 1.0 it issues none. *)
Theorem play_seeks_iff_beyond_margin (w : World) (p : YTPlayer) (data : string) :
  ytPlayer (this w) = Some p ->
  let t := parseFloat data in
  let did := issued w (onWsMessage (Play data) w) in
  let distance := PrimFloat.abs (PrimFloat.sub (getCurrentTime p) t) in
  (In (seekTo t true) did <-> PrimFloat.ltb 1 distance = true)
  /\ (forall t' b, In (seekTo t' b) did -> t' = t /\ b = true)
  /\ (distance = 1%float -> forall t' b, ~ In (seekTo t' b) did).
Proof.
  intros H t did distance.
  assert (D : differs_more_than t (getCurrentTime p) default_margin
              = PrimFloat.ltb 1 distance).
  { unfold differs_more_than, distance, default_margin. now rewrite abs_sub_sym. }
  assert (M : forall t' b, In (seekTo t' b) did
                           <-> PrimFloat.ltb 1 distance = true /\ t' = t /\ b = true).
  { intros t' b. subst did. rewrite (issued_Play w p H data). fold t. rewrite D.
    now apply seek_among. }
  split; [|split].
  - rewrite M. tauto.
  - intros t' b HIn. now apply M in HIn.
  - intros E t' b HIn. apply M in HIn as [L _]. rewrite E in L. discriminate L.
Qed.

Lemma play_seeks_iff_beyond_margin_witness :
  ytPlayer (this (Sample.world PAUSED [])) = Some (mkYTPlayer 10 PAUSED)
  /\ (In (seekTo 12.5 true)
         (issued (Sample.world PAUSED []) (onWsMessage (Play "12.5") (Sample.world PAUSED [])))
      <-> PrimFloat.ltb 1 (PrimFloat.abs (PrimFloat.sub 10 12.5)) = true).
Proof.
  split; [reflexivity|].
  exact (proj1 (play_seeks_iff_beyond_margin
                  (Sample.world PAUSED []) (mkYTPlayer 10 PAUSED) "12.5" eq_refl)).
Defined.

(** A player at 10 seconds: PLAY("11") is at the margin and only resumes,
    PLAY("11.5") and PLAY("8.5") are beyond it and seek. *)
Example play_at_the_margin :
  let w := Sample.world PAUSED [] in
  issued w (onWsMessage (Play "11") w) = [playVideo]
  /\ issued w (onWsMessage (Play "9") w) = [playVideo]
  /\ issued w (onWsMessage (Play "11.5") w) = [seekTo 11.5 true; playVideo]
  /\ issued w (onWsMessage (Play "8.5") w) = [seekTo 8.5 true; playVideo].
Proof. repeat split; reflexivity. Qed.

(** ** Requests to change the queue *)

(** C2. A request to add a video and a request to remove one only send the
    outbound ADD_TO_QUEUE or REMOVE_FROM_QUEUE message: the player, its queue
    included, is as before. *)
Theorem queue_requests_only_send (w : World) (v : Video) (id : string) :
  (this (sendWsRequestToAddToQueue v w) = this w
   /\ issued w (sendWsRequestToAddToQueue v w) = [ws_send ADD_TO_QUEUE (entry v)])
  /\ (this (queueElementDeleteHandler id w) = this w
      /\ issued w (queueElementDeleteHandler id w) = [ws_send REMOVE_FROM_QUEUE (text id)]).
Proof.
  unfold sendWsRequestToAddToQueue, queueElementDeleteHandler, sendWsMessage.
  repeat split; auto with traces.
Qed.

(** ** Frames that are not well formed *)

(** C3, as the code has it. No exception leaves the handler: what is thrown
    inside it is caught and logged, and nothing was issued before it. A
    frame that does not parse and a frame with an action the handler does
    not know change nothing of the player. A payload that [parseFloat] reads
    as NaN makes PLAY and PAUSE skip the seek, but the player is still
    resumed or paused, and SEEK still seeks, to NaN. *)
Theorem malformed_frames (w : World) :
  (forall m,
      match onWsMessage_try m w with
      | Done w' => onWsMessage m w = w'
      | Thrown e w' =>
          onWsMessage m w = emit (console_error e) w' /\ trace w' = trace w
      end)
  /\ (onWsMessage Unparseable w = emit (console_error SyntaxError) w
      /\ this (onWsMessage Unparseable w) = this w)
  /\ (this (onWsMessage Other w) = this w
      /\ forall p, ytPlayer (this w) = Some p -> onWsMessage Other w = w)
  /\ (forall p data,
        ytPlayer (this w) = Some p ->
        PrimFloat.is_nan (parseFloat data) = true ->
        (this (onWsMessage (Play data) w) = this w
         /\ issued w (onWsMessage (Play data) w)
            = if PlayerState_eqb (getPlayerState p) PAUSED then [playVideo] else [])
        /\ (this (onWsMessage (Pause data) w) = this w
            /\ issued w (onWsMessage (Pause data) w)
               = if PlayerState_eqb (getPlayerState p) PLAYING then [pauseVideo] else [])
        /\ (this (onWsMessage (Seek data) w) = this w
            /\ issued w (onWsMessage (Seek data) w) = [seekTo nan true])).
Proof.
  split; [|split; [|split]].
  - intros m. unfold onWsMessage.
    destruct (onWsMessage_try m w) as [w'|e w'] eqn:E; [reflexivity|].
    apply onWsMessage_try_thrown in E as [T _]. now split.
  - split; reflexivity.
  - split.
    + unfold onWsMessage, onWsMessage_try. now destruct (ytPlayer (this w)).
    + intros p H. unfold onWsMessage, onWsMessage_try. now rewrite H.
  - intros p data H N. apply is_nan_eq in N.
    rewrite (onWsMessage_Play w p H data), (onWsMessage_Pause w p H data),
      (onWsMessage_Seek w p H data), N, nan_never_differs.
    cbn zeta.
    repeat split;
      try (destruct (PlayerState_eqb _ _); simpl; auto with traces).
    apply issued_emit.
Qed.

Lemma malformed_frames_witness :
  ytPlayer (this (Sample.world PLAYING [])) = Some (mkYTPlayer 10 PLAYING)
  /\ PrimFloat.is_nan (parseFloat "abc") = true
  /\ issued (Sample.world PLAYING []) (onWsMessage (Seek "abc") (Sample.world PLAYING []))
     = [seekTo nan true].
Proof.
  split; [reflexivity|]. split; [reflexivity|].
  exact (proj2 (proj2 (proj2
           (proj2 (proj2 (proj2 (malformed_frames (Sample.world PLAYING []))))
              (mkYTPlayer 10 PLAYING) "abc" eq_refl eq_refl)))).
Defined.

(** The frame [{not json] and a frame with an unknown action, on a running
    player. *)
Example malformed_frame_is_dropped :
  let w := Sample.world PLAYING [Sample.slot Sample.A true] in
  onWsMessage Unparseable w = emit (console_error SyntaxError) w
  /\ this (onWsMessage Unparseable w) = this w
  /\ onWsMessage Other w = w.
Proof. repeat split. Qed.

(** A throw can come after a change. A QUEUE frame without its list of
    videos, or with videos and no selected video, empties the queue before
    it throws. A PLAY_VIDEO whose id holds a double quote deselects every
    entry before it throws, and the page is not asked to navigate. In each
    case the error is logged and the change stays. *)
Example throw_after_a_change :
  let w := Sample.world PLAYING [Sample.slot Sample.A true] in
  onWsMessage QueueWithoutVideos w
  = emit (console_error TypeError) (with_this (set_queueItemsElement []) w)
  /\ onWsMessage (QueueWithoutVideo [Sample.B]) w
     = emit (console_error TypeError) (with_this (set_queueItemsElement []) w)
  /\ onWsMessage (QueueWithoutVideo []) w = with_this (set_queueItemsElement []) w
  /\ onWsMessage (PlayVideo Sample.quoted) w
     = emit (console_error UnrecognizedExpression)
         (with_this (set_queueItemsElement [Sample.slot Sample.A false]) w).
Proof. repeat split. Qed.

(** A payload with a number at its head is a number to [parseFloat]: PLAY
    with [12abc] seeks to 12. *)
Example number_at_the_head :
  let w := Sample.world PLAYING [] in
  parseFloat "12abc" = 12%float
  /\ issued w (onWsMessage (Play "12abc") w) = [seekTo 12 true].
Proof. split; reflexivity. Qed.

(** C3 fails as stated: a paused player that receives PLAY with the payload
    [abc] is resumed. *)
Lemma non_numeric_play_still_resumes :
  PrimFloat.is_nan (parseFloat "abc") = true
  /\ issued (Sample.world PAUSED []) (onWsMessage (Play "abc") (Sample.world PAUSED []))
     = [playVideo]
  /\ onWsMessage (Play "abc") (Sample.world PAUSED []) <> Sample.world PAUSED [].
Proof.
  split; [reflexivity|]. split; [reflexivity|].
  intros E. apply (f_equal trace) in E. discriminate E.
Qed.

(** ** Inbound [AUTOPLAY] *)

(** C4, as the code has it. An inbound AUTOPLAY(value) that differs from the
    local flag sets the flag and the indicator to value and sends one
    outbound AUTOPLAY(value); one that equals the flag changes nothing and
    sends nothing. Either way the flag is value afterwards. *)
Theorem inbound_autoplay (w : World) (p : YTPlayer) (v : bool) :
  ytPlayer (this w) = Some p ->
  let w' := onWsMessage (Autoplay v) w in
  autoplay (this w') = v
  /\ (autoplay (this w) = v -> w' = w)
  /\ (autoplay (this w) <> v ->
      autoplayToggle (roomInfoElement (this w')) = v
      /\ issued w w' = [ws_send AUTOPLAY (flag v)]).
Proof.
  intros H w'. subst w'. rewrite (onWsMessage_Autoplay w p H v).
  unfold setAutoplay. rewrite andb_true_r.
  destruct (Bool.eqb (autoplay (this w)) v) eqn:E.
  - apply eqb_prop in E. split; [exact E|]. split; [reflexivity|].
    intros N. contradiction.
  - apply eqb_false_iff in E. split; [reflexivity|]. split.
    + intros N. contradiction.
    + intros _. split; [reflexivity|]. now apply issued_app.
Qed.

Lemma inbound_autoplay_witness :
  ytPlayer (this (Sample.world PLAYING [])) = Some (mkYTPlayer 10 PLAYING)
  /\ autoplay (this (onWsMessage (Autoplay false) (Sample.world PLAYING []))) = false.
Proof.
  split; [reflexivity|].
  exact (proj1 (inbound_autoplay (Sample.world PLAYING []) (mkYTPlayer 10 PLAYING)
                  false eq_refl)).
Defined.

(** C4 fails as stated: the flag is true, AUTOPLAY(false) comes in, and an
    AUTOPLAY(false) goes out. *)
Lemma inbound_autoplay_is_sent_back :
  autoplay (this (Sample.world PLAYING [])) = true
  /\ issued (Sample.world PLAYING []) (onWsMessage (Autoplay false) (Sample.world PLAYING []))
     = [ws_send AUTOPLAY (flag false)].
Proof. split; reflexivity. Qed.

(** ** Inbound [PLAY_VIDEO] and the URL schedule *)

Lemma option_string_eqb_refl a : option_string_eqb a a = true.
Proof. destruct a; simpl; [apply String.eqb_refl | reflexivity]. Qed.

Lemma Location_eqb_refl l : Location_eqb l l = true.
Proof. unfold Location_eqb. now rewrite !option_string_eqb_refl. Qed.

Lemma differs_from_iff current id :
  differs_from current id = true <-> current <> Some id.
Proof.
  destruct current as [c|]; simpl.
  - rewrite negb_true_iff, String.eqb_neq. split; congruence.
  - split; [discriminate | reflexivity].
Qed.

Lemma differs_from_eqb current id :
  differs_from current id = negb (option_string_eqb current (Some id)).
Proof. now destruct current. Qed.

(** C5, as the code has it. For a videoId that stands for itself in a
    selector, the handler of an inbound PLAY_VIDEO(videoId) sends nothing
    itself, and asks the page to navigate exactly when the page is on
    another video. When the page is on videoId already, nothing is sent
    after it either. When the page navigates, the next tick of the URL
    schedule sends one outbound PLAY_VIDEO(videoId). *)
Theorem inbound_play_video (w : World) (p : YTPlayer) (session id : string) :
  ytPlayer (this w) = Some p ->
  sessionId (this w) = Some session ->
  selector_safe id = true ->
  filter is_ws_send (issued w (onWsMessage (PlayVideo id) w)) = []
  /\ (In (onYtNavigate_ id (Some session)) (issued w (onWsMessage (PlayVideo id) w))
      <-> param_v (window_location w) <> Some id)
  /\ (param_v (window_location w) = Some id ->
      filter is_ws_send (issued w (inbound_then_url_tick (PlayVideo id) w)) = [])
  /\ (param_v (window_location w) <> Some id ->
      filter is_ws_send (issued w (inbound_then_url_tick (PlayVideo id) w))
      = [ws_send PLAY_VIDEO (text id)]).
Proof.
  intros H S Safe. unfold inbound_then_url_tick.
  rewrite (issued_onWsMessage w p H (PlayVideo id)), Safe, S.
  assert (W : onWsMessage (PlayVideo id) w
              = mkWorld
                  (set_queueItemsElement (selecting id (queueItemsElement (this w))) (this w))
                  (window_location w)
                  (trace w
                   ++ (if differs_from (param_v (window_location w)) id
                       then [onYtNavigate_ id (Some session)] else [])
                   ++ [removeUpnext; removeRelated])).
  { now rewrite (onWsMessage_PlayVideo w p H id), navigateToVideo_outcome, Safe, S. }
  rewrite W.
  pose proof (differs_from_iff (param_v (window_location w)) id) as D.
  destruct (differs_from (param_v (window_location w)) id) eqn:E.
  - assert (N : param_v (window_location w) <> Some id) by now apply D.
    split; [reflexivity|]. split; [split; [auto | intros _; now left]|].
    split; [intros Y; contradiction|]. intros _.
    cbn [app fold_left host_navigates]. unfold urlChangeSchedule_tick.
    cbn [window_location]. unfold Location_eqb at 1. cbn [param_v param_session].
    rewrite differs_from_eqb in E. apply negb_true_iff in E. rewrite E.
    cbn [andb]. unfold onUrlChange. cbn [param_session param_v is_some negb].
    rewrite andb_false_r. unfold sendWsMessage.
    rewrite (issued_app _ _ [onYtNavigate_ id (Some session); removeUpnext;
                             removeRelated; ws_send PLAY_VIDEO (text id)]);
      [reflexivity|].
    unfold emit. cbn [trace]. now rewrite <- !app_assoc.
  - assert (Y : param_v (window_location w) = Some id).
    { destruct (param_v (window_location w)) as [c|] eqn:V; [|discriminate E].
      simpl in E. apply negb_false_iff, String.eqb_eq in E. now subst. }
    split; [reflexivity|]. split.
    { split; [|intros N; contradiction].
      simpl. intros [X|[X|[]]]; discriminate X. }
    split; [|intros N; contradiction]. intros _.
    cbn [app fold_left host_navigates]. unfold urlChangeSchedule_tick.
    cbn [window_location]. rewrite Location_eqb_refl.
    now rewrite (issued_app _ _ [removeUpnext; removeRelated]).
Qed.

Lemma inbound_play_video_witness :
  ytPlayer (this (Sample.world PLAYING [])) = Some (mkYTPlayer 10 PLAYING)
  /\ sessionId (this (Sample.world PLAYING [])) = Some "room"
  /\ selector_safe "bbbbbbbbbbb" = true
  /\ filter is_ws_send
       (issued (Sample.world PLAYING [])
          (onWsMessage (PlayVideo "bbbbbbbbbbb") (Sample.world PLAYING [])))
     = [].
Proof.
  split; [reflexivity|]. split; [reflexivity|]. split; [reflexivity|].
  exact (proj1 (inbound_play_video (Sample.world PLAYING []) (mkYTPlayer 10 PLAYING)
                  "room" "bbbbbbbbbbb" eq_refl eq_refl eq_refl)).
Defined.

(** C5 fails as stated: the page shows video [A], PLAY_VIDEO([B]) comes in,
    the page navigates to [B], and the URL schedule sends PLAY_VIDEO([B]). *)
Lemma inbound_play_video_is_sent_back :
  param_v (window_location (Sample.world PLAYING [])) = Some "aaaaaaaaaaa"
  /\ issued (Sample.world PLAYING [])
       (inbound_then_url_tick (PlayVideo "bbbbbbbbbbb") (Sample.world PLAYING []))
     = [onYtNavigate_ "bbbbbbbbbbb" (Some "room"); removeUpnext; removeRelated;
        ws_send PLAY_VIDEO (text "bbbbbbbbbbb")].
Proof. split; reflexivity. Qed.

(** The same in two calls of the code: the handler, then the callback of the
    URL schedule with the old and the new location. *)
Example play_video_then_url_change :
  let w := Sample.world PLAYING [] in
  let w' := onWsMessage (PlayVideo "bbbbbbbbbbb") w in
  issued w' (onUrlChange (mkLocation (Some "aaaaaaaaaaa") (Some "room"))
                         (mkLocation (Some "bbbbbbbbbbb") (Some "room")) w')
  = [ws_send PLAY_VIDEO (text "bbbbbbbbbbb")].
Proof. reflexivity. Qed.

(** ** Inbound [QUEUE] *)

Lemma rendered_unselected data :
  (forall v, In v (videos data) -> snapshot_selects data v = false) ->
  Forall (fun e => attr_selected e = false) (rendered data).
Proof.
  intros H. unfold rendered. apply Forall_map, Forall_forall. intros v Hv.
  simpl. auto.
Qed.

(** C6. A QUEUE snapshot replaces the queue: the queue afterwards is the
    snapshot as the page shows it, whatever the queue was and whatever frames
    came before; the same snapshot a second time changes nothing; and a
    snapshot whose selected video is null or not in its list marks no entry. *)
Theorem queue_snapshot_replaces (w : World) (p : YTPlayer) (data : QueueMessageData) :
  ytPlayer (this w) = Some p ->
  queueItemsElement (this (onWsMessage (Queue data) w)) = rendered data
  /\ (forall history : list Frame,
        queueItemsElement
          (this (onWsMessage (Queue data)
                   (fold_left (fun w m => onWsMessage m w) history w)))
        = rendered data)
  /\ onWsMessage (Queue data) (onWsMessage (Queue data) w) = onWsMessage (Queue data) w
  /\ map attr_videoId (rendered data) = map videoId (videos data)
  /\ (forall v, In (mkElement (videoId v) (title v) (byline v) true) (rendered data)
                -> exists sel, video data = Some sel /\ videoId v = videoId sel)
  /\ (video data = None ->
      Forall (fun e => attr_selected e = false)
             (queueItemsElement (this (onWsMessage (Queue data) w))))
  /\ (forall sel, video data = Some sel ->
                  ~ In (videoId sel) (map videoId (videos data)) ->
                  Forall (fun e => attr_selected e = false)
                         (queueItemsElement (this (onWsMessage (Queue data) w)))).
Proof.
  intros H.
  assert (Q : forall w', ytPlayer (this w') = Some p ->
                         queueItemsElement (this (onWsMessage (Queue data) w'))
                         = rendered data).
  { intros w' H'. now rewrite (onWsMessage_Queue w' p H' data). }
  split; [now apply Q|]. split.
  { intros history. apply Q. now rewrite history_ytPlayer. }
  split.
  { rewrite (onWsMessage_Queue w p H data).
    now rewrite (onWsMessage_Queue
                   (with_this (set_queueItemsElement (rendered data)) w) p H data). }
  split.
  { unfold rendered. rewrite map_map. reflexivity. }
  split.
  { intros v Hv. unfold rendered in Hv. apply in_map_iff in Hv as [u [E _]].
    injection E as E1 _ _ E4. unfold snapshot_selects in E4.
    destruct (video data) as [sel|]; [|discriminate].
    exists sel. split; [reflexivity|]. apply String.eqb_eq in E4. congruence. }
  rewrite (Q w H). split.
  - intros N. apply rendered_unselected. intros v _.
    unfold snapshot_selects. now rewrite N.
  - intros sel S N. apply rendered_unselected. intros v Hv.
    unfold snapshot_selects. rewrite S. apply String.eqb_neq. intros E.
    apply N. rewrite <- E. now apply in_map.
Qed.

Lemma queue_snapshot_replaces_witness :
  ytPlayer (this (Sample.world PLAYING [Sample.slot Sample.C true]))
  = Some (mkYTPlayer 10 PLAYING)
  /\ queueItemsElement
       (this (onWsMessage (Queue (mkQueueData (Some Sample.B) [Sample.A; Sample.B]))
                (Sample.world PLAYING [Sample.slot Sample.C true])))
     = rendered (mkQueueData (Some Sample.B) [Sample.A; Sample.B]).
Proof.
  split; [reflexivity|].
  exact (proj1 (queue_snapshot_replaces
                  (Sample.world PLAYING [Sample.slot Sample.C true])
                  (mkYTPlayer 10 PLAYING)
                  (mkQueueData (Some Sample.B) [Sample.A; Sample.B]) eq_refl)).
Defined.

(** Deltas, then a snapshot: the queue is the snapshot. A snapshot that
    selects a video outside its list marks nothing. *)
Example snapshot_after_deltas :
  let w := Sample.world PLAYING [Sample.slot Sample.C true] in
  let history := [AddToQueue Sample.A; RemoveFromQueue Sample.C; AddToQueue Sample.A] in
  queueItemsElement
    (this (onWsMessage (Queue (mkQueueData (Some Sample.B) [Sample.A; Sample.B]))
             (fold_left (fun w m => onWsMessage m w) history w)))
  = [Sample.slot Sample.A false; Sample.slot Sample.B true]
  /\ queueItemsElement
       (this (onWsMessage (Queue (mkQueueData (Some Sample.C) [Sample.A; Sample.B])) w))
     = [Sample.slot Sample.A false; Sample.slot Sample.B false]
  /\ queueItemsElement (this (onWsMessage (Queue (mkQueueData None [])) w)) = [].
Proof. repeat split. Qed.

(** ** The next video of the queue *)

Lemma position_first_selected (pre : list QueueElement) cur rest :
  Forall (fun e => attr_selected e = false) pre ->
  attr_selected cur = true ->
  position attr_selected (pre ++ cur :: rest) = Some (List.length pre).
Proof.
  intros U Sel. induction pre as [|e pre IH]; simpl.
  - now rewrite Sel.
  - inversion U as [|? ? Ue Upre]; subst. rewrite Ue, IH by assumption. reflexivity.
Qed.

Lemma position_none (q : list QueueElement) :
  Forall (fun e => attr_selected e = false) q ->
  position attr_selected q = None.
Proof.
  induction 1 as [|e q Ue _ IH]; simpl; [reflexivity|]. now rewrite Ue, IH.
Qed.

Lemma nextVideoId_last pre cur :
  Forall (fun e => attr_selected e = false) pre ->
  attr_selected cur = true ->
  nextVideoId (pre ++ [cur]) = None.
Proof.
  intros U Sel. unfold nextVideoId. cbn zeta.
  rewrite (position_first_selected pre cur [] U Sel). cbn [jq_index].
  rewrite length_app. cbn [List.length].
  replace (Z.of_nat (List.length pre) =? Z.of_nat (List.length pre + 1) - 1)%Z
    with true; [reflexivity|].
  symmetry. apply Z.eqb_eq. lia.
Qed.

Lemma nextVideoId_successor pre cur next rest :
  Forall (fun e => attr_selected e = false) pre ->
  attr_selected cur = true ->
  nextVideoId (pre ++ cur :: next :: rest) = Some (attr_videoId next).
Proof.
  intros U Sel. unfold nextVideoId. cbn zeta.
  rewrite (position_first_selected pre cur (next :: rest) U Sel). cbn [jq_index].
  rewrite length_app. cbn [List.length].
  replace (Z.of_nat (List.length pre)
           =? Z.of_nat (List.length pre + S (S (List.length rest))) - 1)%Z
    with false by (symmetry; apply Z.eqb_neq; lia).
  replace (Z.to_nat (Z.of_nat (List.length pre) + 1)) with (List.length pre + 1) by lia.
  rewrite nth_error_app2 by lia.
  replace (List.length pre + 1 - List.length pre) with 1 by lia.
  reflexivity.
Qed.

Lemma position_bound {A : Type} (test : A -> bool) (l : list A) i :
  position test l = Some i -> i < List.length l.
Proof.
  revert i. induction l as [|a l IH]; simpl; intros i H; [discriminate|].
  destruct (test a).
  - injection H as <-. lia.
  - destruct (position test l) as [j|]; [|discriminate].
    injection H as <-. specialize (IH j eq_refl). lia.
Qed.

(** The method stops at the early return and nowhere else. *)
Lemma nextVideoId_early_return (children : list QueueElement) :
  nextVideoId children = None
  <-> jq_index children (position attr_selected children)
      = (Z.of_nat (List.length children) - 1)%Z.
Proof.
  unfold nextVideoId. cbn zeta.
  destruct (Z.eqb_spec (jq_index children (position attr_selected children))
                       (Z.of_nat (List.length children) - 1)) as [E|N].
  - tauto.
  - split; [|contradiction]. intros H. exfalso.
    destruct (nth_error children
                (Z.to_nat (jq_index children (position attr_selected children) + 1)))
      as [e|] eqn:G; [discriminate H|].
    apply nth_error_None in G.
    destruct (position attr_selected children) as [i|] eqn:P.
    + apply position_bound in P. cbn [jq_index] in *. lia.
    + destruct children; cbn [jq_index List.length] in *; lia.
Qed.

(** Nothing selected: jQuery's [index] answers 0 on a queue that is not
    empty, and the method goes on from the first entry. *)
Lemma nextVideoId_none_selected first second rest :
  Forall (fun e => attr_selected e = false) (first :: second :: rest) ->
  nextVideoId (first :: second :: rest) = Some (attr_videoId second)
  /\ nextVideoId [first] = None.
Proof.
  intros U. unfold nextVideoId. cbn zeta.
  rewrite (position_none _ U).
  inversion U as [|? ? U1 _]; subst.
  rewrite (position_none [first]) by (constructor; [exact U1 | constructor]).
  cbn [jq_index List.length]. split; [|reflexivity].
  replace (0 =? Z.of_nat (S (S (List.length rest))) - 1)%Z with false
    by (symmetry; apply Z.eqb_neq; lia).
  reflexivity.
Qed.

(** C7, as the code has it. [playNextVideoInQueue] does nothing when the
    queue is empty and when the first selected entry is the last entry; when
    an entry follows the first selected entry, it navigates to that entry. *)
Theorem advance_in_queue (w : World) :
  (queueItemsElement (this w) = [] ->
   nextVideoId (queueItemsElement (this w)) = None /\ playNextVideoInQueue w = Done w)
  /\ (forall pre cur,
        Forall (fun e => attr_selected e = false) pre ->
        attr_selected cur = true ->
        queueItemsElement (this w) = pre ++ [cur] ->
        nextVideoId (queueItemsElement (this w)) = None
        /\ playNextVideoInQueue w = Done w)
  /\ (forall pre cur next rest,
        Forall (fun e => attr_selected e = false) pre ->
        attr_selected cur = true ->
        queueItemsElement (this w) = pre ++ cur :: next :: rest ->
        nextVideoId (queueItemsElement (this w)) = Some (attr_videoId next)
        /\ playNextVideoInQueue w = navigateToVideo (attr_videoId next) w).
Proof.
  unfold playNextVideoInQueue. split; [|split].
  - intros ->. split; reflexivity.
  - intros pre cur U Sel ->. rewrite (nextVideoId_last pre cur U Sel). now split.
  - intros pre cur next rest U Sel ->.
    rewrite (nextVideoId_successor pre cur next rest U Sel). now split.
Qed.

Lemma advance_in_queue_witness :
  nextVideoId
    (queueItemsElement
       (this (Sample.world ENDED
                [Sample.slot Sample.A false; Sample.slot Sample.B true;
                 Sample.slot Sample.C false])))
  = Some "ccccccccccc"
  /\ nextVideoId
       (queueItemsElement
          (this (Sample.world ENDED
                   [Sample.slot Sample.A false; Sample.slot Sample.B true])))
     = None.
Proof.
  split.
  - refine (proj1 (proj2 (proj2 (advance_in_queue
              (Sample.world ENDED
                 [Sample.slot Sample.A false; Sample.slot Sample.B true;
                  Sample.slot Sample.C false])))
              [Sample.slot Sample.A false] (Sample.slot Sample.B true)
              (Sample.slot Sample.C false) [] _ _ _));
      [repeat constructor | reflexivity | reflexivity].
  - refine (proj1 (proj1 (proj2 (advance_in_queue
              (Sample.world ENDED
                 [Sample.slot Sample.A false; Sample.slot Sample.B true])))
              [Sample.slot Sample.A false] (Sample.slot Sample.B true) _ _ _));
      [repeat constructor | reflexivity | reflexivity].
Defined.

(** C7 fails as stated: with no entry selected in the queue [A; B] the
    method does not stop, it navigates to [B]. *)
Lemma advance_without_selection_navigates :
  position attr_selected [Sample.slot Sample.A false; Sample.slot Sample.B false] = None
  /\ issued
       (Sample.world ENDED [Sample.slot Sample.A false; Sample.slot Sample.B false])
       (after
          (playNextVideoInQueue
             (Sample.world ENDED [Sample.slot Sample.A false; Sample.slot Sample.B false])))
     = [onYtNavigate_ "bbbbbbbbbbb" (Some "room"); removeUpnext; removeRelated]
  /\ playNextVideoInQueue
       (Sample.world ENDED [Sample.slot Sample.A false; Sample.slot Sample.B false])
     <> Done (Sample.world ENDED [Sample.slot Sample.A false; Sample.slot Sample.B false]).
Proof.
  split; [reflexivity|]. split; [reflexivity|].
  intros E. apply (f_equal (fun o => trace (after o))) in E. discriminate E.
Qed.

(** The end of video [B] with autoplay on and the queue [A; B; C]: [C] is
    selected and the page is asked to navigate to it; nothing is sent. *)
Example ended_advances :
  let w := Sample.world ENDED
             [Sample.slot Sample.A false; Sample.slot Sample.B true;
              Sample.slot Sample.C false] in
  onStateChange ENDED w
  = Done (mkWorld
            (set_queueItemsElement
               [Sample.slot Sample.A false; Sample.slot Sample.B false;
                Sample.slot Sample.C true] (this w))
            (window_location w)
            [onYtNavigate_ "ccccccccccc" (Some "room"); removeUpnext; removeRelated]).
Proof. reflexivity. Qed.

(** ** Inbound [REMOVE_FROM_QUEUE] *)

Lemma filter_all {A : Type} (f : A -> bool) (l : list A) :
  (forall x, In x l -> f x = true) -> filter f l = l.
Proof.
  induction l as [|a l IH]; simpl; intros H; [reflexivity|].
  rewrite (H a) by now left. f_equal. apply IH. intros x Hx. apply H. now right.
Qed.

Lemma filter_length_split {A : Type} (f : A -> bool) (l : list A) :
  List.length (filter (fun x => negb (f x)) l) + List.length (filter f l)
  = List.length l.
Proof.
  induction l as [|a l IH]; simpl; [reflexivity|].
  destruct (f a); simpl; lia.
Qed.

(** C8, as the code has it. An inbound REMOVE_FROM_QUEUE whose payload is a
    video, with a videoId that stands for itself in a selector, removes
    every entry of the queue that carries the videoId, and leaves the other
    entries as they are and in their order; when no entry carries it,
    nothing changes. *)
Theorem remove_from_queue_removes_all (w : World) (p : YTPlayer) (v : Video) :
  ytPlayer (this w) = Some p ->
  selector_safe (videoId v) = true ->
  let q := queueItemsElement (this w) in
  let q' := queueItemsElement (this (onWsMessage (RemoveFromQueue v) w)) in
  q' = filter (fun e => negb (String.eqb (attr_videoId e) (videoId v))) q
  /\ ~ In (videoId v) (map attr_videoId q')
  /\ (forall e, attr_videoId e <> videoId v -> (In e q' <-> In e q))
  /\ List.length q' + List.length (filter (has_videoId (videoId v)) q) = List.length q
  /\ (~ In (videoId v) (map attr_videoId q) -> onWsMessage (RemoveFromQueue v) w = w).
Proof.
  intros H Safe q q'. subst q q'.
  rewrite (onWsMessage_RemoveFromQueue w p H v), removeFromQueue_outcome.
  cbn [template_videoId]. rewrite Safe.
  cbn [try_catch_log this with_this queueItemsElement set_queueItemsElement].
  split; [reflexivity|]. split; [|split; [|split]].
  - intros HIn. apply in_map_iff in HIn as [e [E F]].
    apply filter_In in F as [_ F]. apply negb_true_iff, String.eqb_neq in F.
    contradiction.
  - intros e N. rewrite filter_In, negb_true_iff, String.eqb_neq. tauto.
  - apply (filter_length_split (has_videoId (videoId v))).
  - intros N. destruct w as [[s y o q r a c] l t].
    unfold with_this, set_queueItemsElement. simpl in *.
    rewrite filter_all; [reflexivity|].
    intros e He. apply negb_true_iff, String.eqb_neq. intros E.
    apply N. rewrite <- E. now apply in_map.
Qed.

Lemma remove_from_queue_removes_all_witness :
  ytPlayer (this (Sample.world PLAYING [Sample.slot Sample.A true; Sample.slot Sample.B false]))
  = Some (mkYTPlayer 10 PLAYING)
  /\ selector_safe (videoId Sample.B) = true
  /\ queueItemsElement
       (this (onWsMessage (RemoveFromQueue Sample.B)
                (Sample.world PLAYING [Sample.slot Sample.A true; Sample.slot Sample.B false])))
     = [Sample.slot Sample.A true].
Proof.
  split; [reflexivity|]. split; [reflexivity|].
  exact (proj1 (remove_from_queue_removes_all
                  (Sample.world PLAYING [Sample.slot Sample.A true; Sample.slot Sample.B false])
                  (mkYTPlayer 10 PLAYING) Sample.B eq_refl eq_refl)).
Defined.

(** C8 fails as stated: video [A] is twice in the queue [A; B; A], and one
    REMOVE_FROM_QUEUE for it removes both entries, not the first alone. *)
Lemma remove_from_queue_removes_both :
  queueItemsElement
    (this (onWsMessage (RemoveFromQueue Sample.A)
             (Sample.world PLAYING
                [Sample.slot Sample.A true; Sample.slot Sample.B false;
                 Sample.slot Sample.A true])))
  = [Sample.slot Sample.B false]
  /\ queueItemsElement
       (this (onWsMessage (RemoveFromQueue Sample.A)
                (Sample.world PLAYING
                   [Sample.slot Sample.A true; Sample.slot Sample.B false;
                    Sample.slot Sample.A true])))
     <> [Sample.slot Sample.B false; Sample.slot Sample.A true].
Proof. split; [reflexivity | discriminate]. Qed.

(** The payload the delete handler of an entry sends is the video id, a
    string. Handed to [removeFromQueue], it has no member [videoId]: the
    selector asks for the text [undefined], and the entries of the video
    stay. *)
Example remove_by_the_id_alone :
  let w := Sample.world PLAYING [Sample.slot Sample.A true; Sample.slot Sample.B false] in
  issued w (queueElementDeleteHandler "aaaaaaaaaaa" w)
  = [ws_send REMOVE_FROM_QUEUE (text "aaaaaaaaaaa")]
  /\ onWsMessage (RemoveFromQueueText "aaaaaaaaaaa") w = w
  /\ queueItemsElement
       (this (onWsMessage (RemoveFromQueueText "aaaaaaaaaaa")
                (Sample.world PLAYING
                   [Sample.slot Sample.A true;
                    mkElement "undefined" "Fourth" "four" false])))
     = [Sample.slot Sample.A true].
Proof. repeat split. Qed.

(** ** Inbound [CLIENT_CONNECT] *)

Lemma known_socketId c (l : list Client) :
  In (socketId c) (map socketId l) ->
  existsb (String.eqb (socketId c)) (map socketId l) = true.
Proof.
  intros H. apply existsb_exists. exists (socketId c).
  split; [exact H | apply String.eqb_refl].
Qed.

(** C9. A CLIENT_CONNECT for a socketId that is in the roster leaves the
    roster as it is: the same clients, the same participants in the page,
    the same size. Only the description line is written again, with the
    same count. *)
Theorem connect_of_known_client (w : World) (p : YTPlayer) (c : Client) :
  ytPlayer (this w) = Some p ->
  In (socketId c) (map socketId (clients (this w))) ->
  let w' := onWsMessage (ClientConnect c) w in
  clients (this w') = clients (this w)
  /\ participants (roomInfoElement (this w')) = participants (roomInfoElement (this w))
  /\ List.length (clients (this w')) = List.length (clients (this w))
  /\ w' = describe_clients w
  /\ (description (roomInfoElement (this w))
      = connected (List.length (clients (this w))) -> w' = w).
Proof.
  intros H K w'. subst w'. rewrite (onWsMessage_ClientConnect w p H c).
  unfold addClients. cbn [fold_left]. rewrite (known_socketId c _ K).
  repeat split.
  intros D. destruct w as [[s y o q [d g ps] a cs] l t].
  unfold describe_clients, with_this, set_roomInfoElement,
    changeYtPlaylistPanelRendererDescription. simpl in *. now rewrite <- D.
Qed.

Lemma connect_of_known_client_witness :
  ytPlayer (this (Sample.world PLAYING [])) = Some (mkYTPlayer 10 PLAYING)
  /\ In (socketId (mkClient "s-2" true (Some "bob again")))
        (map socketId (clients (this (Sample.world PLAYING []))))
  /\ clients (this (onWsMessage (ClientConnect (mkClient "s-2" true (Some "bob again")))
                      (Sample.world PLAYING [])))
     = clients (this (Sample.world PLAYING [])).
Proof.
  split; [reflexivity|]. split; [simpl; auto|].
  refine (proj1 (connect_of_known_client (Sample.world PLAYING [])
                   (mkYTPlayer 10 PLAYING) (mkClient "s-2" true (Some "bob again"))
                   eq_refl _)).
  simpl; auto.
Defined.

(** A known client and a new one. *)
Example connect_twice :
  let w := Sample.world PLAYING [] in
  onWsMessage (ClientConnect Sample.bob) w = w
  /\ clients (this (onWsMessage (ClientConnect (mkClient "s-3" false None)) w))
     = [Sample.alice; Sample.bob; mkClient "s-3" false None].
Proof. split; reflexivity. Qed.

(** ** [create], a second time *)

(** C10. Once a player was created, [create] returns at once: the world is
    as before, nothing is injected, started or connected. This holds for
    both classes of the file. *)
Theorem create_again_is_noop (w : World) (p : YTPlayer) :
  ytPlayer (this w) = Some p ->
  (forall getPlayer sessionId, create getPlayer sessionId w = Done w)
  /\ (forall fresh videoId sessionId, Earlier.create fresh videoId sessionId w = w).
Proof.
  intros H. unfold create, Earlier.create. rewrite H. now split.
Qed.

Lemma create_again_is_noop_witness :
  ytPlayer (this (Sample.world PLAYING [Sample.slot Sample.A true]))
  = Some (mkYTPlayer 10 PLAYING)
  /\ create (Some (mkYTPlayer 0 UNSTARTED)) "other"
       (Sample.world PLAYING [Sample.slot Sample.A true])
     = Done (Sample.world PLAYING [Sample.slot Sample.A true]).
Proof.
  split; [reflexivity|].
  exact (proj1 (create_again_is_noop
                  (Sample.world PLAYING [Sample.slot Sample.A true])
                  (mkYTPlayer 10 PLAYING) eq_refl)
           (Some (mkYTPlayer 0 UNSTARTED)) "other").
Defined.

(** The first [create] sets the player up and connects; the second one,
    on its result, does nothing. *)
Example create_then_create :
  create (Some (mkYTPlayer 0 UNSTARTED)) "room" Sample.blank
  = Done (mkWorld
            (mkPlayer (Some "room") (Some (mkYTPlayer 0 UNSTARTED)) Sample.opts []
                      (mkRoomInfo "Not connected" false []) true [])
            (window_location Sample.blank)
            [addEventListener_onStateChange; injectEmptyQueueShell;
             injectEmptyRoomInfoShell; startSeekSchedule; startUrlChangeSchedule;
             startQueueStoreSchedule; io_connect "http://127.0.0.1:8080/room"])
  /\ (create (Some (mkYTPlayer 0 UNSTARTED)) "room" Sample.blank
        >>= create (Some (mkYTPlayer 5 PLAYING)) "elsewhere")
     = create (Some (mkYTPlayer 0 UNSTARTED)) "room" Sample.blank
  /\ create None "room" Sample.blank = Thrown TypeError Sample.blank.
Proof. repeat split. Qed.

(** * Further properties of [Player] *)

(** ** What the handler sends *)

(** X1. The handler of inbound frames sends an outbound message in one case
    only: an AUTOPLAY whose value differs from the flag, on a running player,
    is answered with one AUTOPLAY of that value. Every other frame, and every
    frame before the player exists, sends nothing. *)
Theorem handler_sends_only_for_autoplay (m : Frame) (w : World) :
  filter is_ws_send (issued w (onWsMessage m w)) =
    match m, ytPlayer (this w) with
    | Autoplay v, Some _ =>
        if Bool.eqb (autoplay (this w)) v then [] else [ws_send AUTOPLAY (flag v)]
    | _, _ => []
    end.
Proof.
  destruct (ytPlayer (this w)) as [p|] eqn:H.
  - rewrite (issued_onWsMessage w p H m).
    destruct m; try reflexivity;
      repeat match goal with
             | |- context [if ?b then _ else _] => destruct b
             | |- context [match ?l with [] => _ | _ :: _ => _ end] => destruct l
             end;
      reflexivity.
  - rewrite (onWsMessage_without_player m w H), issued_emit. now destruct m.
Qed.

(** ** Inbound [PLAY], [PAUSE] and [SEEK] *)

Lemma PlayerState_eqb_eq a b : PlayerState_eqb a b = true <-> a = b.
Proof. destruct a, b; simpl; split; congruence. Qed.

Lemma command_among (c s : bool) (t : float) (e : Effect) :
  is_seekTo e = false ->
  In e ((if c then [seekTo t true] else []) ++ (if s then [e] else [])) <-> s = true.
Proof.
  intros Ne. rewrite in_app_iff. split.
  - intros [HIn|HIn].
    + destruct c; [|contradiction]. destruct HIn as [E|[]]. subst e. discriminate Ne.
    + destruct s; [reflexivity | contradiction].
  - intros ->. right. now left.
Qed.

(** X2. On a running player, PLAY resumes exactly a paused player and PAUSE
    pauses exactly a playing one; PAUSE seeks to its time exactly when
    |p - t| > 1.0, as PLAY does; SEEK issues one seek to its time whatever
    the distance and nothing else. None of the three changes the player
    record. *)
Theorem playback_frames (w : World) (p : YTPlayer) (data : string) :
  ytPlayer (this w) = Some p ->
  let t := parseFloat data in
  let distance := PrimFloat.abs (PrimFloat.sub (getCurrentTime p) t) in
  (In playVideo (issued w (onWsMessage (Play data) w)) <-> getPlayerState p = PAUSED)
  /\ (In pauseVideo (issued w (onWsMessage (Pause data) w)) <-> getPlayerState p = PLAYING)
  /\ (forall t' b, In (seekTo t' b) (issued w (onWsMessage (Pause data) w))
                   <-> PrimFloat.ltb 1 distance = true /\ t' = t /\ b = true)
  /\ issued w (onWsMessage (Seek data) w) = [seekTo t true]
  /\ this (onWsMessage (Play data) w) = this w
  /\ this (onWsMessage (Pause data) w) = this w
  /\ this (onWsMessage (Seek data) w) = this w.
Proof.
  intros H t distance.
  assert (D : differs_more_than t (getCurrentTime p) default_margin
              = PrimFloat.ltb 1 distance).
  { unfold differs_more_than, distance, default_margin. now rewrite abs_sub_sym. }
  rewrite !(issued_onWsMessage w p H), !(this_onWsMessage w p H). fold t.
  rewrite D, <- !PlayerState_eqb_eq.
  split; [now apply command_among|]. split; [now apply command_among|].
  split; [intros t' b; now apply seek_among|]. repeat split.
Qed.

Lemma playback_frames_witness :
  ytPlayer (this (Sample.world PLAYING [])) = Some (mkYTPlayer 10 PLAYING)
  /\ (In pauseVideo
         (issued (Sample.world PLAYING []) (onWsMessage (Pause "10.5") (Sample.world PLAYING [])))
      <-> PLAYING = PLAYING).
Proof.
  split; [reflexivity|].
  exact (proj1 (proj2 (playback_frames (Sample.world PLAYING []) (mkYTPlayer 10 PLAYING)
                         "10.5" eq_refl))).
Defined.

(** A playing player at 10 seconds: PAUSE("10.5") pauses without a seek,
    PAUSE("20") seeks and pauses, SEEK("10.5") seeks although it is within
    the margin, and a paused player is not paused again. *)
Example pause_and_seek :
  let w := Sample.world PLAYING [] in
  issued w (onWsMessage (Pause "10.5") w) = [pauseVideo]
  /\ issued w (onWsMessage (Pause "20") w) = [seekTo 20 true; pauseVideo]
  /\ issued w (onWsMessage (Seek "10.5") w) = [seekTo 10.5 true]
  /\ issued (Sample.world PAUSED []) (onWsMessage (Pause "10.5") (Sample.world PAUSED [])) = [].
Proof. repeat split. Qed.

(** ** What no inbound frame touches *)

(** X3. No inbound frame, well formed or not, changes the session id, the
    connection options or the player object, and the handler never assigns
    the location of the page. *)
Theorem inbound_frames_keep_the_session (m : Frame) (w : World) :
  sessionId (this (onWsMessage m w)) = sessionId (this w)
  /\ options (this (onWsMessage m w)) = options (this w)
  /\ ytPlayer (this (onWsMessage m w)) = ytPlayer (this w)
  /\ (forall l, ~ In (location_search_assign l) (issued w (onWsMessage m w))).
Proof.
  destruct (ytPlayer (this w)) as [p|] eqn:H.
  - rewrite (this_onWsMessage w p H m), (issued_onWsMessage w p H m).
    destruct m; rewrite ?addClients_shape; unfold setAutoplay;
      repeat match goal with
             | |- context [if ?b then _ else _] => destruct b
             | |- context [match ?l with [] => _ | _ :: _ => _ end] => destruct l
             end;
      (split; [reflexivity|]); (split; [reflexivity|]); (split; [exact H|]);
      intros l; simpl; intuition discriminate.
  - rewrite (onWsMessage_without_player m w H), issued_emit.
    repeat split; [exact H|]. intros l [E|[]]. discriminate E.
Qed.

(** ** The roster *)

Lemma filter_drops_key {A : Type} (key : A -> string) (x : string) (l : list A) :
  ~ In x (map key (filter (fun c => negb (String.eqb (key c) x)) l)).
Proof.
  intros HIn. apply in_map_iff in HIn as [c [E F]].
  apply filter_In in F as [_ F]. apply negb_true_iff, String.eqb_neq in F.
  contradiction.
Qed.

(** X4. A CLIENT_DISCONNECT with a socketId that stands for itself in a
    selector removes every client with the socketId from the roster and from
    the page, keeps the others in their order, and writes the new count into
    the description line; for an id the roster does not hold, the roster
    stays as it is. *)
Theorem disconnect_removes_the_client (w : World) (p : YTPlayer) (id : string) :
  ytPlayer (this w) = Some p ->
  selector_safe id = true ->
  let w' := onWsMessage (ClientDisconnect id) w in
  clients (this w')
  = filter (fun c => negb (String.eqb (socketId c) id)) (clients (this w))
  /\ participants (roomInfoElement (this w'))
     = filter (fun c => negb (String.eqb (socketId c) id))
              (participants (roomInfoElement (this w)))
  /\ ~ In id (map socketId (clients (this w')))
  /\ ~ In id (map socketId (participants (roomInfoElement (this w'))))
  /\ description (roomInfoElement (this w'))
     = connected (List.length (clients (this w')))
  /\ (~ In id (map socketId (clients (this w))) ->
      clients (this w') = clients (this w)).
Proof.
  intros H Safe w'. subst w'. rewrite (this_onWsMessage w p H), Safe.
  cbn [clients set_clients roomInfoElement set_roomInfoElement participants description].
  unfold other_than.
  repeat split; try apply filter_drops_key.
  intros N. apply filter_all. intros c Hc.
  apply negb_true_iff, String.eqb_neq. intros E. apply N. rewrite <- E.
  now apply in_map.
Qed.

Lemma disconnect_removes_the_client_witness :
  ytPlayer (this (Sample.world PLAYING [])) = Some (mkYTPlayer 10 PLAYING)
  /\ selector_safe "s-1" = true
  /\ clients (this (onWsMessage (ClientDisconnect "s-1") (Sample.world PLAYING [])))
     = [Sample.bob].
Proof.
  split; [reflexivity|]. split; [reflexivity|].
  exact (proj1 (disconnect_removes_the_client (Sample.world PLAYING [])
                  (mkYTPlayer 10 PLAYING) "s-1" eq_refl eq_refl)).
Defined.

(** X5. A CLIENTS frame does not replace the roster, it adds to it: the
    roster afterwards is the roster before followed by the clients of the
    frame whose socketId the roster before did not hold, in the order of the
    frame. So no client leaves through a CLIENTS frame, every socketId of
    the frame is in the roster afterwards, and the description line shows
    the new count. *)
Theorem clients_frame_only_adds (w : World) (p : YTPlayer) (cs : list Client) :
  ytPlayer (this w) = Some p ->
  let w' := onWsMessage (Clients cs) w in
  let new := filter (unknown_to (map socketId (clients (this w)))) cs in
  clients (this w') = clients (this w) ++ new
  /\ participants (roomInfoElement (this w'))
     = participants (roomInfoElement (this w)) ++ new
  /\ (forall c, In c (clients (this w)) -> In c (clients (this w')))
  /\ (forall c, In c cs -> In (socketId c) (map socketId (clients (this w'))))
  /\ description (roomInfoElement (this w'))
     = connected (List.length (clients (this w'))).
Proof.
  intros H w' new. subst w'. rewrite (onWsMessage_Clients w p H cs), addClients_shape.
  fold new.
  cbn [this with_this clients set_clients roomInfoElement set_roomInfoElement
       participants description describe_clients joined
       changeYtPlaylistPanelRendererDescription].
  split; [reflexivity|]. split; [reflexivity|]. split; [|split; [|reflexivity]].
  - intros c Hc. apply in_or_app. now left.
  - intros c Hc. rewrite map_app, in_app_iff.
    destruct (unknown_to (map socketId (clients (this w))) c) eqn:U.
    + right. apply in_map. subst new. apply filter_In. now split.
    + left. unfold unknown_to in U. apply negb_false_iff, existsb_exists in U.
      destruct U as [x [Hx E]]. apply String.eqb_eq in E. now subst x.
Qed.

Lemma clients_frame_only_adds_witness :
  ytPlayer (this (Sample.world PLAYING [])) = Some (mkYTPlayer 10 PLAYING)
  /\ clients (this (onWsMessage (Clients [Sample.bob; mkClient "s-3" false None])
                      (Sample.world PLAYING [])))
     = [Sample.alice; Sample.bob; mkClient "s-3" false None].
Proof.
  split; [reflexivity|].
  exact (proj1 (clients_frame_only_adds (Sample.world PLAYING [])
                  (mkYTPlayer 10 PLAYING) [Sample.bob; mkClient "s-3" false None]
                  eq_refl)).
Defined.

(** A CLIENTS frame without a client of the roster leaves that client in;
    a client twice in one frame is added twice, since the ids are compared
    with the roster as it was before the frame. *)
Example clients_frame_edges :
  let w := Sample.world PLAYING [] in
  clients (this (onWsMessage (Clients []) w)) = [Sample.alice; Sample.bob]
  /\ clients (this (onWsMessage (Clients [mkClient "s-3" false None;
                                          mkClient "s-3" false None]) w))
     = [Sample.alice; Sample.bob; mkClient "s-3" false None; mkClient "s-3" false None]
  /\ description
       (roomInfoElement
          (this (onWsMessage (Clients [mkClient "s-3" false None;
                                       mkClient "s-3" false None]) w)))
     = "Connected (4)".
Proof. repeat split. Qed.

Lemma roster_in_sync_inbound m w :
  roster_in_sync w -> roster_in_sync (onWsMessage m w).
Proof.
  unfold roster_in_sync. intros R.
  destruct (ytPlayer (this w)) as [p|] eqn:H.
  - rewrite (this_onWsMessage w p H m).
    destruct m; try exact R; rewrite ?addClients_shape;
      try (destruct (selector_safe _); try exact R);
      try (unfold setAutoplay; now destruct (_ && _));
      cbn [this with_this clients set_clients roomInfoElement set_roomInfoElement
           participants describe_clients joined
           changeYtPlaylistPanelRendererDescription]; now rewrite R.
  - now rewrite (onWsMessage_without_player m w H).
Qed.

Lemma roster_in_sync_happens w e :
  roster_in_sync w -> roster_in_sync (happens w e).
Proof.
  destruct e as [m|state]; [apply roster_in_sync_inbound|].
  unfold roster_in_sync, happens, setAutoplay. intros R.
  now destruct (_ && _).
Qed.

(** X6. From [create] on, the participants shown in the page are the clients
    the player holds: after a new player was created, whatever frames come
    in and however often the user flips the toggle, the two lists are
    equal, as long as the socketIds of the CLIENT_DISCONNECT frames stand
    for themselves in a selector. *)
Theorem page_shows_the_roster
    (o : PlayerOptions) (l : Location) (p : YTPlayer) (session : string)
    (events : list Event) :
  Forall (fun e => disconnects_safely e = true) events ->
  exists w,
    create (Some p) session (mkWorld (constructor o) l []) = Done w
    /\ roster_in_sync w
    /\ roster_in_sync (fold_left happens events w).
Proof.
  intros _. eexists. split; [reflexivity|].
  assert (R : forall w, roster_in_sync w -> roster_in_sync (fold_left happens events w)).
  { induction events as [|e events IH]; intros w Rw; [exact Rw|].
    apply IH, roster_in_sync_happens, Rw. }
  split; [reflexivity | now apply R].
Qed.

Lemma page_shows_the_roster_witness :
  Forall (fun e => disconnects_safely e = true)
         [inbound (Clients [Sample.alice; Sample.bob]);
          inbound (ClientDisconnect "s-1"); toggled false]
  /\ exists w,
       create (Some (mkYTPlayer 0 UNSTARTED)) "room"
         (mkWorld (constructor Sample.opts) (window_location Sample.blank) [])
       = Done w
       /\ roster_in_sync
            (fold_left happens
               [inbound (Clients [Sample.alice; Sample.bob]);
                inbound (ClientDisconnect "s-1"); toggled false] w).
Proof.
  assert (Safe : Forall (fun e => disconnects_safely e = true)
                   [inbound (Clients [Sample.alice; Sample.bob]);
                    inbound (ClientDisconnect "s-1"); toggled false]).
  { repeat constructor. }
  split; [exact Safe|].
  destruct (page_shows_the_roster Sample.opts (window_location Sample.blank)
              (mkYTPlayer 0 UNSTARTED) "room" _ Safe) as (w & C & _ & R).
  exists w. split; [exact C | exact R].
Defined.

(** ** The autoplay toggle *)



(** X8. When the socket connects, the player asks for the video of the page
    to be added to the queue, asks for it to be played and announces its
    autoplay flag, in this order; the queue, the roster and the flag stay
    as they are: the video enters the local queue with the confirmation. *)
Theorem connect_announces (video : Video) (w : World) :
  issued w (onWsConnected video w)
  = [ws_send ADD_TO_QUEUE (entry video);
     ws_send PLAY_VIDEO (text (videoId video));
     ws_send AUTOPLAY (flag (autoplay (this w)))]
  /\ queueItemsElement (this (onWsConnected video w)) = queueItemsElement (this w)
  /\ clients (this (onWsConnected video w)) = clients (this w)
  /\ autoplay (this (onWsConnected video w)) = autoplay (this w).
Proof.
  unfold onWsConnected, setAutoplay. cbn zeta. rewrite andb_false_r.
  split; [|repeat split].
  apply issued_app. unfold sendWsRequestToAddToQueue, sendWsMessage. simpl.
  now rewrite <- !app_assoc.
Qed.

(** A user who flips the toggle to the state the flag has sends nothing;
    a flip to the other state sends one AUTOPLAY. *)
Example user_flips_the_toggle :
  let w := Sample.world PLAYING [] in
  issued w (happens w (toggled true)) = []
  /\ issued w (happens w (toggled false)) = [ws_send AUTOPLAY (flag false)]
  /\ autoplay (this (happens w (toggled false))) = false.
Proof. repeat split. Qed.

(** ** Selecting an entry of the queue *)

(** X9. Navigating to a video whose id stands for itself in a selector (from
    a click on an entry, an inbound PLAY_VIDEO or the end of a video) marks
    exactly the entries with that videoId as selected and no other; the
    entries, their order and their texts stay; a videoId the queue does not
    hold leaves no entry selected; and doing it twice selects what doing it
    once selects. *)
Theorem navigate_selects_exactly (id : string) (w : World) :
  selector_safe id = true ->
  exists w',
    navigateToVideo id w = Done w'
    /\ queueElementClickHandler id w = Done w'
    /\ let q := queueItemsElement (this w) in
       let q' := queueItemsElement (this w') in
       map attr_videoId q' = map attr_videoId q
       /\ map text_title q' = map text_title q
       /\ map text_byline q' = map text_byline q
       /\ Forall (fun e => attr_selected e = true <-> attr_videoId e = id) q'
       /\ (~ In id (map attr_videoId q) -> Forall (fun e => attr_selected e = false) q')
       /\ exists w'', navigateToVideo id w' = Done w''
                      /\ queueItemsElement (this w'') = q'.
Proof.
  intros Safe. unfold queueElementClickHandler.
  rewrite navigateToVideo_outcome, Safe.
  eexists. split; [reflexivity|]. split; [reflexivity|].
  cbn [this queueItemsElement set_queueItemsElement]. unfold selecting.
  rewrite !map_map. cbn [attr_videoId text_title text_byline].
  split; [reflexivity|]. split; [reflexivity|]. split; [reflexivity|].
  split; [|split].
  - apply Forall_map, Forall_forall. intros e _. cbn [attr_selected attr_videoId].
    apply String.eqb_eq.
  - intros N. apply Forall_map, Forall_forall. intros e He. cbn [attr_selected].
    apply String.eqb_neq. intros E. apply N. rewrite <- E. now apply in_map.
  - rewrite navigateToVideo_outcome, Safe. eexists. split; [reflexivity|].
    cbn [this queueItemsElement set_queueItemsElement]. unfold selecting.
    now rewrite map_map.
Qed.

Lemma navigate_selects_exactly_witness :
  selector_safe "bbbbbbbbbbb" = true
  /\ exists w',
       navigateToVideo "bbbbbbbbbbb"
         (Sample.world PLAYING [Sample.slot Sample.A true; Sample.slot Sample.B false])
       = Done w'
       /\ map attr_videoId (queueItemsElement (this w'))
          = map attr_videoId [Sample.slot Sample.A true; Sample.slot Sample.B false].
Proof.
  split; [reflexivity|].
  destruct (navigate_selects_exactly "bbbbbbbbbbb"
              (Sample.world PLAYING [Sample.slot Sample.A true; Sample.slot Sample.B false])
              eq_refl) as (w' & N & _ & Ids & _).
  exists w'. split; [exact N | exact Ids].
Defined.

(** ** Adding to the queue and removing from it *)

(** X10. A confirmed ADD_TO_QUEUE appends one unselected entry at the end of
    the queue, also when the video is in the queue already. When the videoId
    stands for itself in a selector, a REMOVE_FROM_QUEUE for the same video
    after it leaves the queue without any entry of that video; when the
    video was not in the queue before, the two frames together change
    nothing at all. *)
Theorem add_then_remove (w : World) (p : YTPlayer) (v : Video) :
  ytPlayer (this w) = Some p ->
  selector_safe (videoId v) = true ->
  let q := queueItemsElement (this w) in
  let added := onWsMessage (AddToQueue v) w in
  queueItemsElement (this added)
  = q ++ [mkElement (videoId v) (title v) (byline v) false]
  /\ List.length (queueItemsElement (this added)) = S (List.length q)
  /\ queueItemsElement (this (onWsMessage (RemoveFromQueue v) added))
     = filter (fun e => negb (String.eqb (attr_videoId e) (videoId v))) q
  /\ (~ In (videoId v) (map attr_videoId q) ->
      onWsMessage (RemoveFromQueue v) added = w).
Proof.
  intros H Safe q added. subst q added.
  rewrite (onWsMessage_AddToQueue w p H).
  rewrite (onWsMessage_RemoveFromQueue (addToQueue v false w) p H), removeFromQueue_outcome.
  cbn [template_videoId]. rewrite Safe. cbn [try_catch_log].
  unfold addToQueue, injectYtPlaylistPanelVideoRendererElement.
  cbn [this with_this queueItemsElement set_queueItemsElement].
  split; [reflexivity|]. split; [rewrite length_app; simpl; lia|].
  assert (F : filter (fun e => negb (String.eqb (attr_videoId e) (videoId v)))
                (queueItemsElement (this w)
                 ++ [mkElement (videoId v) (title v) (byline v) false])
              = filter (fun e => negb (String.eqb (attr_videoId e) (videoId v)))
                  (queueItemsElement (this w))).
  { rewrite filter_app. cbn [filter attr_videoId]. rewrite String.eqb_refl.
    cbn [negb]. apply app_nil_r. }
  split; [exact F|].
  intros N. destruct w as [[s y o q r a c] l t].
  unfold with_this, set_queueItemsElement. cbn in *. rewrite F.
  rewrite filter_all; [reflexivity|].
  intros e He. apply negb_true_iff, String.eqb_neq. intros E.
  apply N. rewrite <- E. now apply in_map.
Qed.

Lemma add_then_remove_witness :
  ytPlayer (this (Sample.world PLAYING [Sample.slot Sample.A true]))
  = Some (mkYTPlayer 10 PLAYING)
  /\ selector_safe (videoId Sample.A) = true
  /\ queueItemsElement
       (this (onWsMessage (AddToQueue Sample.A)
                (Sample.world PLAYING [Sample.slot Sample.A true])))
     = [Sample.slot Sample.A true; Sample.slot Sample.A false].
Proof.
  split; [reflexivity|]. split; [reflexivity|].
  exact (proj1 (add_then_remove (Sample.world PLAYING [Sample.slot Sample.A true])
                  (mkYTPlayer 10 PLAYING) Sample.A eq_refl eq_refl)).
Defined.

(** ** The first [create] *)

(** X11. On a player object without a player, [create] succeeds exactly when
    the page has a player to give. Then the player and the session are set,
    the queue and the participants start empty, the seven steps of the
    set-up are taken in their order, and every later [create] changes
    nothing. When the page has no player, [create] throws a TypeError and
    leaves everything as it was, so that a later call can succeed. *)
Theorem first_create (w : World) (session : string) :
  ytPlayer (this w) = None ->
  (forall p,
      exists w',
        create (Some p) session w = Done w'
        /\ ytPlayer (this w') = Some p
        /\ sessionId (this w') = Some session
        /\ queueItemsElement (this w') = []
        /\ participants (roomInfoElement (this w')) = []
        /\ issued w w'
           = [addEventListener_onStateChange; injectEmptyQueueShell;
              injectEmptyRoomInfoShell; startSeekSchedule; startUrlChangeSchedule;
              startQueueStoreSchedule;
              io_connect (protocol (options (this w)) ++ "://" ++ host (options (this w))
                          ++ ":" ++ port (options (this w)) ++ "/" ++ session)]
        /\ (forall getPlayer session', create getPlayer session' w' = Done w'))
  /\ create None session w = Thrown TypeError w.
Proof.
  intros H. split.
  - intros p. unfold create. rewrite H. cbn [is_some]. cbn zeta.
    unfold ytPlayer_do. cbn [this with_this ytPlayer set_ytPlayer andThen].
    eexists. split; [reflexivity|].
    repeat split.
    apply issued_app. unfold connectWs. simpl. now rewrite <- !app_assoc.
  - unfold create, ytPlayer_do. rewrite H. cbn [is_some]. cbn zeta.
    cbn [this with_this ytPlayer set_ytPlayer andThen].
    destruct w as [[s y o q r a c] l t]. simpl in H. subst y. reflexivity.
Qed.

Lemma first_create_witness :
  ytPlayer (this Sample.blank) = None
  /\ create None "room" Sample.blank = Thrown TypeError Sample.blank.
Proof.
  split; [reflexivity|].
  exact (proj2 (first_create Sample.blank "room" eq_refl)).
Defined.

(** ** Local navigation and the URL schedule *)

Lemma option_string_eqb_differs current id :
  option_string_eqb current (Some id) = negb (differs_from current id).
Proof. destruct current; simpl; [now rewrite negb_involutive | reflexivity]. Qed.

(** What goes out after the player navigated on its own account and the URL
    schedule has seen the page follow. *)
Lemma navigation_then_url_tick (step : World -> Outcome) (id session : string) (w : World) :
  step w = navigateToVideo id w ->
  sessionId (this w) = Some session ->
  selector_safe id = true ->
  filter is_ws_send (issued w (after (step w))) = []
  /\ filter is_ws_send (issued w (step_then_url_tick step w))
     = if differs_from (param_v (window_location w)) id
       then [ws_send PLAY_VIDEO (text id)] else [].
Proof.
  intros E S Safe. unfold step_then_url_tick. rewrite E, navigateToVideo_outcome, Safe, S.
  cbn [after]. cbn zeta.
  match goal with
  | |- context [issued w ?x] =>
      rewrite (issued_app w x
                 ((if differs_from (param_v (window_location w)) id
                   then [onYtNavigate_ id (Some session)] else [])
                  ++ [removeUpnext; removeRelated]) eq_refl)
  end.
  destruct (differs_from (param_v (window_location w)) id) eqn:D.
  - split; [reflexivity|].
    cbn [app fold_left host_navigates]. unfold urlChangeSchedule_tick.
    cbn [window_location]. unfold Location_eqb at 1. cbn [param_v param_session].
    rewrite option_string_eqb_differs, D. cbn [negb andb].
    unfold onUrlChange. cbn [param_session param_v is_some negb].
    rewrite andb_false_r. unfold sendWsMessage.
    rewrite (issued_app _ _ [onYtNavigate_ id (Some session); removeUpnext;
                             removeRelated; ws_send PLAY_VIDEO (text id)]);
      [reflexivity|].
    unfold emit. cbn [trace]. now rewrite <- !app_assoc.
  - split; [reflexivity|].
    cbn [app fold_left host_navigates]. unfold urlChangeSchedule_tick.
    cbn [window_location]. rewrite Location_eqb_refl.
    now rewrite (issued_app _ _ [removeUpnext; removeRelated]).
Qed.

(** X12. A navigation the player starts itself, to a video whose id stands
    for itself in a selector, is announced by the URL schedule, not by the
    code that starts it. A click on a queue entry and the end of a video
    with autoplay on send nothing; once the page has followed, the next tick
    of the URL schedule sends one PLAY_VIDEO for the new video, and none
    when the page was on that video already. With autoplay off the end of a
    video does nothing. *)
Theorem local_navigation_is_announced (w : World) (session : string) :
  sessionId (this w) = Some session ->
  (forall id,
      selector_safe id = true ->
      filter is_ws_send (issued w (after (queueElementClickHandler id w))) = []
      /\ filter is_ws_send (issued w (step_then_url_tick (queueElementClickHandler id) w))
         = if differs_from (param_v (window_location w)) id
           then [ws_send PLAY_VIDEO (text id)] else [])
  /\ (autoplay (this w) = false -> onStateChange ENDED w = Done w)
  /\ (forall pre cur next rest,
        autoplay (this w) = true ->
        Forall (fun e => attr_selected e = false) pre ->
        attr_selected cur = true ->
        queueItemsElement (this w) = pre ++ cur :: next :: rest ->
        selector_safe (attr_videoId next) = true ->
        onStateChange ENDED w = navigateToVideo (attr_videoId next) w
        /\ filter is_ws_send (issued w (after (onStateChange ENDED w))) = []
        /\ filter is_ws_send (issued w (step_then_url_tick (onStateChange ENDED) w))
           = if differs_from (param_v (window_location w)) (attr_videoId next)
             then [ws_send PLAY_VIDEO (text (attr_videoId next))] else []).
Proof.
  intros S. split; [|split].
  - intros id Safe. now apply (navigation_then_url_tick _ id session).
  - intros A. unfold onStateChange. now rewrite A.
  - intros pre cur next rest A U Sel Q Safe.
    assert (E : onStateChange ENDED w = navigateToVideo (attr_videoId next) w).
    { unfold onStateChange, playNextVideoInQueue.
      now rewrite A, Q, (nextVideoId_successor pre cur next rest U Sel). }
    split; [exact E|].
    now apply (navigation_then_url_tick _ (attr_videoId next) session).
Qed.

Lemma local_navigation_is_announced_witness :
  sessionId (this (Sample.world ENDED [])) = Some "room"
  /\ selector_safe "bbbbbbbbbbb" = true
  /\ filter is_ws_send
       (issued (Sample.world ENDED [])
          (step_then_url_tick (queueElementClickHandler "bbbbbbbbbbb") (Sample.world ENDED [])))
     = [ws_send PLAY_VIDEO (text "bbbbbbbbbbb")].
Proof.
  split; [reflexivity|]. split; [reflexivity|].
  exact (proj2 (proj1 (local_navigation_is_announced (Sample.world ENDED [])
                         "room" eq_refl) "bbbbbbbbbbb" eq_refl)).
Defined.

(** * The first version *)

(** ** Splitting *)

Lemma split_cons sep (s : string) : exists piece pieces, First.split sep s = piece :: pieces.
Proof.
  induction s as [|c r [piece [pieces IH]]]; simpl; [now eexists; eexists|].
  destruct (Ascii.eqb c sep); [now eexists; eexists|].
  rewrite IH. now eexists; eexists.
Qed.

Lemma split_at_separator sep (a d : string) :
  First.free_of sep a = true ->
  First.split sep (a ++ String sep d) = a :: First.split sep d.
Proof.
  induction a as [|c a IH]; simpl; intros F.
  - now rewrite Ascii.eqb_refl.
  - apply andb_prop in F as [N F]. apply negb_true_iff in N.
    now rewrite N, IH.
Qed.

Lemma split_without_separator sep (d : string) :
  First.free_of sep d = true -> First.split sep d = [d].
Proof.
  induction d as [|c d IH]; simpl; intros F; [reflexivity|].
  apply andb_prop in F as [N F]. apply negb_true_iff in N.
  now rewrite N, IH.
Qed.

Lemma toString_free_of_space m : First.free_of " " (First.toString m) = true.
Proof. now destruct m. Qed.

Lemma split_frame m d :
  First.split " " (First.toString m ++ " " ++ d)
  = First.toString m :: First.split " " d.
Proof. apply split_at_separator, toString_free_of_space. Qed.

Lemma first_issued_app (w w' : First.World) l :
  First.trace w' = First.trace w ++ l -> First.issued w w' = l.
Proof. unfold First.issued. intros ->. apply skipn_length_app. Qed.

(** ** Text frames, sent and received *)

(** X13. The text frame one client sends with [sendWsMessage] is read by
    another client as the same command; the data it reads is the data sent,
    up to its first space. So data without a space arrives whole, and data
    with a space is cut. *)
Theorem text_frame_round_trip
    (sender receiver : First.World) (p : YTPlayer) (m : First.Message) (d : string) :
  First.ytPlayer (First.this receiver) = Some p ->
  let frame := (First.toString m ++ " " ++ d)%string in
  First.issued sender (First.sendWsMessage m d sender) = [First.ws_send frame]
  /\ First.onWsMessage frame receiver
     = First.try_catch_log
         (First.dispatch (getPlayerState p) (First.toString m)
            (nth_error (First.split " " d) 0) receiver)
  /\ (First.free_of " " d = true ->
      First.onWsMessage frame receiver
      = First.try_catch_log
          (First.dispatch (getPlayerState p) (First.toString m) (Some d) receiver)).
Proof.
  intros H frame. subst frame.
  split; [now apply first_issued_app|].
  assert (E : First.onWsMessage (First.toString m ++ " " ++ d) receiver
              = First.try_catch_log
                  (First.dispatch (getPlayerState p) (First.toString m)
                     (nth_error (First.split " " d) 0) receiver)).
  { unfold First.onWsMessage. cbn zeta. rewrite split_frame.
    cbn [nth_error]. unfold First.onWsMessage_try. now rewrite H. }
  split; [exact E|].
  intros F. rewrite E. now rewrite (split_without_separator " " d F).
Qed.

Lemma text_frame_round_trip_witness :
  First.ytPlayer
    (First.this (First.mkWorld (First.mkPlayer (Some (mkYTPlayer 10 PLAYING))
                                               First.plugin_options [])
                               (mkLocation None None) []))
  = Some (mkYTPlayer 10 PLAYING)
  /\ First.issued
       (First.mkWorld (First.mkPlayer None First.plugin_options []) (mkLocation None None) [])
       (First.sendWsMessage First.PLAY_VIDEO "bbbbbbbbbbb"
          (First.mkWorld (First.mkPlayer None First.plugin_options [])
                         (mkLocation None None) []))
     = [First.ws_send "play-video bbbbbbbbbbb"].
Proof.
  split; [reflexivity|].
  exact (proj1 (text_frame_round_trip
                  (First.mkWorld (First.mkPlayer None First.plugin_options [])
                                 (mkLocation None None) [])
                  (First.mkWorld (First.mkPlayer (Some (mkYTPlayer 10 PLAYING))
                                                 First.plugin_options [])
                                 (mkLocation None None) [])
                  (mkYTPlayer 10 PLAYING) First.PLAY_VIDEO "bbbbbbbbbbb" eq_refl)).
Defined.

(** A frame on a playing player at 10 seconds: [pause 30] seeks and pauses;
    the data of [play-video a b] is cut at the space; a frame without data
    makes [play-video] navigate to the video [undefined]. *)
Example text_frames :
  let w := First.mkWorld (First.mkPlayer (Some (mkYTPlayer 10 PLAYING))
                                         First.plugin_options [])
                         (mkLocation (Some "aaaaaaaaaaa") (Some "room")) [] in
  First.issued w (First.onWsMessage "pause 30" w) = [First.seekTo 30 true; First.pauseVideo]
  /\ First.window_location (First.onWsMessage "play-video a b" w)
     = mkLocation (Some "a") (Some "room")
  /\ First.window_location (First.onWsMessage "play-video" w)
     = mkLocation (Some "undefined") (Some "room")
  /\ First.onWsMessage "" w = w.
Proof. repeat split. Qed.

(** ** The queue of the first version *)

Lemma first_populateQueue_shape (ids : list string) (w : First.World) :
  First.populateQueue ids w
  = First.with_this (fun p => First.mkPlayer (First.ytPlayer p) (First.options p) ids) w.
Proof.
  unfold First.populateQueue. cbn zeta.
  assert (G : forall ids w,
             fold_left
               (fun w vId =>
                  First.with_this (fun p =>
                    First.mkPlayer (First.ytPlayer p) (First.options p)
                      (First.injectVideoQueueElement (First.queueElement p) vId)) w)
               ids w
             = First.with_this (fun p =>
                 First.mkPlayer (First.ytPlayer p) (First.options p)
                                (First.queueElement p ++ ids)) w).
  { clear. induction ids as [|id ids IH]; intros [[y o q] l t]; simpl.
    - unfold First.with_this. simpl. now rewrite app_nil_r.
    - rewrite IH. unfold First.with_this, First.injectVideoQueueElement. simpl.
      now rewrite <- app_assoc. }
  rewrite G. now destruct w.
Qed.

Lemma free_of_app sep (a b : string) :
  First.free_of sep (a ++ b) = First.free_of sep a && First.free_of sep b.
Proof.
  induction a as [|c a IH]; simpl; [reflexivity|]. now rewrite IH, andb_assoc.
Qed.

Lemma split_concat (ids : list string) :
  ids <> [] ->
  Forall (fun id => First.free_of "," id = true) ids ->
  First.split "," (String.concat "," ids) = ids.
Proof.
  induction ids as [|id ids IH]; [congruence|]. intros _ F.
  inversion F as [|? ? Fid Fids]; subst.
  destruct ids as [|id' ids].
  - simpl. now apply split_without_separator.
  - change (String.concat "," (id :: id' :: ids))
      with (id ++ String "," (String.concat "," (id' :: ids)))%string.
    rewrite (split_at_separator "," id _ Fid). f_equal.
    apply IH; [discriminate | exact Fids].
Qed.

Lemma free_of_concat (ids : list string) :
  Forall (fun id => First.free_of " " id = true) ids ->
  First.free_of " " (String.concat "," ids) = true.
Proof.
  induction 1 as [|id ids Fid _ IH]; [reflexivity|].
  destruct ids as [|id' ids]; [exact Fid|].
  change (String.concat "," (id :: id' :: ids))
    with (id ++ String "," (String.concat "," (id' :: ids)))%string.
  rewrite free_of_app, Fid. simpl. exact IH.
Qed.

Lemma first_onWsMessage_queue w p d :
  First.ytPlayer (First.this w) = Some p ->
  First.onWsMessage ("queue " ++ d) w
  = First.populateQueue (First.split "," (hd EmptyString (First.split " " d))) w.
Proof.
  intros H. unfold First.onWsMessage. cbn zeta.
  change ("queue " ++ d)%string with (First.toString First.QUEUE ++ " " ++ d)%string.
  rewrite (split_frame First.QUEUE d). cbn [nth_error].
  unfold First.onWsMessage_try. rewrite H.
  destruct (split_cons " " d) as [piece [pieces E]]. rewrite E. reflexivity.
Qed.

(** X14. A [queue] frame replaces the queue by the pieces between the commas
    of its data, the data being what follows [queue] up to the next space.
    Ids without comma and space, joined by commas, arrive as they are. The
    queue is never empty afterwards: a frame with empty data gives one entry
    with the empty id, and a frame without data throws inside the handler,
    which logs the error and leaves the queue. *)
Theorem queue_frame_of_the_first_version (w : First.World) (p : YTPlayer) :
  First.ytPlayer (First.this w) = Some p ->
  (forall d,
      First.queueElement (First.this (First.onWsMessage ("queue " ++ d) w))
      = First.split "," (hd EmptyString (First.split " " d)))
  /\ (forall d, First.queueElement (First.this (First.onWsMessage ("queue " ++ d) w)) <> [])
  /\ (forall ids,
        ids <> [] ->
        Forall (fun id => First.free_of "," id = true) ids ->
        Forall (fun id => First.free_of " " id = true) ids ->
        First.queueElement
          (First.this (First.onWsMessage ("queue " ++ String.concat "," ids) w))
        = ids)
  /\ First.queueElement (First.this (First.onWsMessage "queue " w)) = [EmptyString]
  /\ First.onWsMessage "queue" w = First.emit (First.console_error TypeError) w.
Proof.
  intros H.
  assert (Q : forall d,
             First.queueElement (First.this (First.onWsMessage ("queue " ++ d) w))
             = First.split "," (hd EmptyString (First.split " " d))).
  { intros d. now rewrite (first_onWsMessage_queue w p d H), first_populateQueue_shape. }
  split; [exact Q|]. split; [|split; [|split]].
  - intros d. rewrite Q.
    destruct (split_cons "," (hd EmptyString (First.split " " d))) as [x [xs E]].
    rewrite E. discriminate.
  - intros ids N Fc Fs. rewrite Q.
    rewrite (split_without_separator " " _ (free_of_concat ids Fs)).
    now apply split_concat.
  - exact (Q EmptyString).
  - unfold First.onWsMessage, First.onWsMessage_try. simpl. now rewrite H.
Qed.

Lemma queue_frame_of_the_first_version_witness :
  First.ytPlayer (First.this (FirstSample.world PLAYING ["x"]))
  = Some (mkYTPlayer 10 PLAYING)
  /\ First.queueElement
       (First.this (First.onWsMessage "queue aaaaaaaaaaa,bbbbbbbbbbb"
                      (FirstSample.world PLAYING ["x"])))
     = ["aaaaaaaaaaa"; "bbbbbbbbbbb"].
Proof.
  split; [reflexivity|].
  exact (proj1 (queue_frame_of_the_first_version (FirstSample.world PLAYING ["x"])
                  (mkYTPlayer 10 PLAYING) eq_refl) "aaaaaaaaaaa,bbbbbbbbbbb").
Defined.

Lemma first_dispatch_queue state command data w p :
  First.ytPlayer (First.this w) = Some p ->
  command <> "queue" ->
  First.queueElement
    (First.this (First.try_catch_log (First.dispatch state command data w)))
  = First.queueElement (First.this w).
Proof.
  intros H N. unfold First.dispatch, First.syncPlayerTime, First.ytPlayer_do.
  rewrite H. cbn [First.toString].
  repeat match goal with
         | |- context [String.eqb command ?s] =>
             destruct (String.eqb_spec command s); [subst command|]
         | |- context [if ?b then _ else _] =>
             destruct b; simpl; rewrite ?H; simpl
         end;
    try reflexivity; contradiction.
Qed.

(** X15. In the first version the queue changes with [queue] frames only.
    Any frame with another command leaves it as it is; a frame with
    [add-to-queue] or [delete-from-queue], which are members of the
    enumeration and the second of which the client sends itself, changes
    nothing at all on a running player. *)
Theorem queue_changes_with_queue_frames_only (message : string) (w : First.World) :
  (nth_error (First.split " " message) 0 <> Some "queue" ->
   First.queueElement (First.this (First.onWsMessage message w))
   = First.queueElement (First.this w))
  /\ (forall p d,
        First.ytPlayer (First.this w) = Some p ->
        First.onWsMessage (First.toString First.ADD_TO_QUEUE ++ " " ++ d) w = w
        /\ First.onWsMessage (First.toString First.DELETE_FROM_QUEUE ++ " " ++ d) w = w
        /\ First.issued w (First.queueElementDeleteHandler d w)
           = [First.ws_send (First.toString First.DELETE_FROM_QUEUE ++ " " ++ d)]).
Proof.
  split.
  - intros N. unfold First.onWsMessage, First.onWsMessage_try. cbn zeta.
    destruct (First.ytPlayer (First.this w)) as [p|] eqn:H; [|reflexivity].
    destruct (nth_error (First.split " " message) 0) as [command|]; [|reflexivity].
    apply (first_dispatch_queue _ _ _ _ p H). congruence.
  - intros p d H. unfold First.onWsMessage. cbn zeta.
    rewrite !split_frame. cbn [nth_error].
    unfold First.onWsMessage_try. rewrite H.
    repeat split. now apply first_issued_app.
Qed.

(** ** A [play-video] frame and the URL check of the first version *)

Lemma Location_eqb_v o id session :
  param_v o <> Some id ->
  Location_eqb o (mkLocation (Some id) session) = false.
Proof.
  intros N. unfold Location_eqb. cbn [param_v].
  destruct (param_v o) as [c|]; simpl; [|reflexivity].
  destruct (String.eqb_spec c id); [subst; contradiction | reflexivity].
Qed.

(** X16. In the first version a [play-video] frame loads nothing: it changes
    the query string of the page. The video is loaded by the callback of the
    URL check, which sees the change, loads the video and also sends a
    [play-video] frame for it back; when the page was on the video already,
    the check sees no change and nothing follows. *)
Theorem play_video_goes_through_the_url (w : First.World) (p : YTPlayer) (id : string) :
  First.ytPlayer (First.this w) = Some p ->
  First.free_of " " id = true ->
  let w' := First.onWsMessage ("play-video " ++ id) w in
  First.window_location w'
  = mkLocation (Some id) (param_session (First.window_location w))
  /\ First.issued w w' = [First.changeQueryString (First.window_location w')]
  /\ First.this w' = First.this w
  /\ (param_v (First.window_location w) = Some id ->
      First.urlChangeCheck_tick (First.window_location w) w' = First.Done w')
  /\ (param_v (First.window_location w) <> Some id ->
      First.urlChangeCheck_tick (First.window_location w) w'
      = First.Done
          (First.emit (First.loadVideoById id)
             (First.emit (First.ws_send ("play-video " ++ id)) w'))).
Proof.
  intros H F w'.
  assert (E : w' = First.changeQueryStringVideoId (Some id) w).
  { subst w'. unfold First.onWsMessage. cbn zeta.
    change ("play-video " ++ id)%string
      with (First.toString First.PLAY_VIDEO ++ " " ++ id)%string.
    rewrite split_frame, (split_without_separator " " id F). cbn [nth_error].
    unfold First.onWsMessage_try. now rewrite H. }
  rewrite E. unfold First.changeQueryStringVideoId. cbn zeta.
  cbn [First.template First.window_location First.this].
  split; [reflexivity|]. split; [now apply first_issued_app|]. split; [reflexivity|].
  unfold First.urlChangeCheck_tick. cbn [First.window_location]. split.
  - intros V. destruct (First.window_location w) as [v s] eqn:L. simpl in V. subst v.
    now rewrite Location_eqb_refl.
  - intros N. rewrite (Location_eqb_v _ _ _ N).
    unfold First.onUrlChange. cbn [param_session param_v].
    destruct (param_session (First.window_location w)); simpl; now rewrite H.
Qed.

Lemma play_video_goes_through_the_url_witness :
  First.ytPlayer (First.this (FirstSample.world PLAYING [])) = Some (mkYTPlayer 10 PLAYING)
  /\ First.free_of " " "bbbbbbbbbbb" = true
  /\ First.window_location
       (First.onWsMessage "play-video bbbbbbbbbbb" (FirstSample.world PLAYING []))
     = mkLocation (Some "bbbbbbbbbbb") (Some "room").
Proof.
  split; [reflexivity|]. split; [reflexivity|].
  exact (proj1 (play_video_goes_through_the_url (FirstSample.world PLAYING [])
                  (mkYTPlayer 10 PLAYING) "bbbbbbbbbbb" eq_refl eq_refl)).
Defined.

(** ** The intervals of [plugin.ts] *)

Lemma Interval_eqb_eq a b : First.Interval_eqb a b = true <-> a = b.
Proof. destruct a, b; simpl; split; congruence. Qed.

Lemma Interval_eqb_refl a : First.Interval_eqb a a = true.
Proof. now apply Interval_eqb_eq. Qed.

Lemma existsb_Interval i l : existsb (First.Interval_eqb i) l = true <-> In i l.
Proof.
  rewrite existsb_exists. split.
  - intros [j [Hj E]]. apply Interval_eqb_eq in E. now subst.
  - intros H. exists i. split; [exact H | apply Interval_eqb_refl].
Qed.

Lemma in_clearInterval i j l : In j (First.clearInterval i l) <-> In j l /\ i <> j.
Proof.
  unfold First.clearInterval. rewrite filter_In, negb_true_iff.
  rewrite <- not_true_iff_false, Interval_eqb_eq. tauto.
Qed.

Lemma in_fired running ticks i :
  In i (First.fired running ticks) <-> In i running /\ In i ticks.
Proof.
  revert running. induction ticks as [|j ticks IH]; intros running; simpl; [tauto|].
  destruct (existsb (First.Interval_eqb j) running) eqn:E.
  - apply existsb_Interval in E. simpl. rewrite IH, in_clearInterval.
    split.
    + intros [<-|[[Hr N] Ht]]; auto.
    + intros [Hr [<-|Ht]]; [now left|].
      destruct (Interval_eqb_eq j i) as [_ Q].
      destruct (First.Interval_eqb j i) eqn:B.
      * left. now apply Interval_eqb_eq.
      * right. split; [split; [exact Hr|]|exact Ht]. intros ->.
        rewrite Interval_eqb_refl in B. discriminate.
  - rewrite IH. split; [tauto|]. intros [Hr [<-|Ht]]; [|tauto].
    apply existsb_Interval in Hr. congruence.
Qed.

Lemma NoDup_fired running ticks : NoDup (First.fired running ticks).
Proof.
  revert running. induction ticks as [|j ticks IH]; intros running; simpl;
    [constructor|].
  destruct (existsb (First.Interval_eqb j) running); [|apply IH].
  constructor; [|apply IH].
  rewrite in_fired, in_clearInterval. tauto.
Qed.

Lemma NoDup_flat_map {A B : Type} (f : A -> list B) (l : list A) :
  NoDup l ->
  (forall a, NoDup (f a)) ->
  (forall a b e, In e (f a) -> In e (f b) -> a = b) ->
  NoDup (flat_map f l).
Proof.
  intros N Each Apart. induction N as [|a l Ha N IH]; simpl; [constructor|].
  apply NoDup_app; [apply Each | exact IH |].
  intros e He Hl. apply in_flat_map in Hl as [b [Hb Hf]].
  rewrite (Apart a b e He Hf) in Ha. contradiction.
Qed.

Lemma marks_each fresh l i : NoDup (First.marks fresh l i).
Proof.
  destruct i; unfold First.marks, First.issued; simpl;
    repeat constructor; simpl; intuition discriminate.
Qed.

Lemma marks_apart fresh l a b e :
  In e (First.marks fresh l a) -> In e (First.marks fresh l b) -> a = b.
Proof.
  destruct a, b; unfold First.marks, First.issued; simpl; intros Ha Hb;
    try reflexivity;
    repeat match goal with
           | H : _ \/ _ |- _ => destruct H
           | H : False |- _ => contradiction
           end; subst; discriminate.
Qed.

Lemma callback_trace fresh l i pg :
  First.videoId pg = param_v l ->
  First.trace (First.callback fresh i pg)
  = First.trace (First.world pg) ++ First.marks fresh l i.
Proof.
  intros V. destruct i; unfold First.marks, First.issued, First.callback; simpl;
    rewrite ?V; try reflexivity.
  now rewrite <- !app_assoc.
Qed.

Lemma callback_player fresh i pg :
  First.ytPlayer (First.this (First.callback fresh i pg))
  = if First.Interval_eqb First.queueInject i then Some fresh
    else First.ytPlayer (First.this (First.world pg)).
Proof. now destruct i. Qed.

(** The page after a sequence of ticks. *)
Lemma ticks_shape fresh l (ticks : list First.Interval) (pg : First.Page) :
  First.videoId pg = param_v l ->
  let pg' := fold_left (First.tick fresh) ticks pg in
  First.trace (First.world pg')
  = First.trace (First.world pg)
    ++ flat_map (First.marks fresh l) (First.fired (First.timers pg) ticks)
  /\ First.ytPlayer (First.this (First.world pg'))
     = (if existsb (First.Interval_eqb First.queueInject)
             (First.fired (First.timers pg) ticks)
        then Some fresh else First.ytPlayer (First.this (First.world pg))).
Proof.
  revert pg. induction ticks as [|i ticks IH]; intros pg V; cbn zeta.
  - simpl. now rewrite app_nil_r.
  - cbn [fold_left First.fired].
    assert (Step : First.tick fresh pg i
                   = if existsb (First.Interval_eqb i) (First.timers pg)
                     then First.mkPage (First.urlParams pg) (First.videoId pg)
                            (First.sessionId pg)
                            (First.clearInterval i (First.timers pg))
                            (First.callback fresh i pg)
                     else pg) by reflexivity.
    rewrite Step. clear Step.
    destruct (existsb (First.Interval_eqb i) (First.timers pg)) eqn:E.
    + destruct (IH (First.mkPage (First.urlParams pg) (First.videoId pg)
                      (First.sessionId pg)
                      (First.clearInterval i (First.timers pg))
                      (First.callback fresh i pg)) V) as [T P].
      cbn [First.world First.timers] in T, P. split.
      * rewrite T, (callback_trace fresh l i pg V). cbn [flat_map].
        now rewrite <- app_assoc.
      * rewrite P, callback_player. cbn [existsb].
        destruct (First.Interval_eqb First.queueInject i),
          (existsb (First.Interval_eqb First.queueInject)
             (First.fired (First.clearInterval i (First.timers pg)) ticks));
          reflexivity.
    + apply (IH pg V).
Qed.

(** X17. The intervals of the plugin act once. Whatever the sequence of
    their ticks, nothing is done twice: every button is injected at most
    once and at most one player is created, although [create] of this
    version would create another one at every call. What is done is what
    the intervals started at load do at their first tick. On a page without
    session no player is created; on a page with a session one is created
    exactly when the queue interval has ticked. *)
Theorem plugin_acts_once (fresh : YTPlayer) (l : Location) (ticks : list First.Interval) :
  let started := First.timers (First.onload l) in
  let pg := fold_left (First.tick fresh) ticks (First.onload l) in
  NoDup (First.trace (First.world pg))
  /\ (forall e, In e (First.trace (First.world pg))
                <-> exists i, In i started /\ In i ticks /\ In e (First.marks fresh l i))
  /\ (First.ytPlayer (First.this (First.world pg)) = Some fresh
      <-> param_session l <> None /\ In First.queueInject ticks)
  /\ (First.ytPlayer (First.this (First.world pg)) = None
      <-> param_session l = None \/ ~ In First.queueInject ticks).
Proof.
  intros started pg.
  destruct (ticks_shape fresh l ticks (First.onload l) eq_refl) as [T P].
  fold pg in T, P. cbn [First.onload First.world First.trace app] in T.
  change (First.timers (First.onload l)) with started in T, P.
  assert (Q : existsb (First.Interval_eqb First.queueInject)
                (First.fired started ticks) = true
              <-> param_session l <> None /\ In First.queueInject ticks).
  { rewrite existsb_Interval, in_fired. subst started. unfold First.onload.
    cbn [First.timers]. destruct (param_session l); simpl.
    - split; [intros [_ Ht]; split; [discriminate | exact Ht] | intros [_ Ht]; auto].
    - split; [intros [[D|[D|[]]] _]; discriminate D | intros [N _]; congruence]. }
  split; [|split; [|split]].
  - rewrite T. apply NoDup_flat_map;
      [apply NoDup_fired | apply marks_each | apply marks_apart].
  - intros e. rewrite T, in_flat_map. split.
    + intros [i [Hi He]]. apply in_fired in Hi as [Hs Ht]. now exists i.
    + intros [i [Hs [Ht He]]]. exists i. split; [|exact He].
      apply in_fired. now split.
  - rewrite P. cbn [First.onload First.world First.this First.ytPlayer].
    destruct (existsb _ (First.fired started ticks)).
    + split; [intros _; now apply Q | reflexivity].
    + split; [discriminate|]. intros R. apply Q in R. discriminate.
  - rewrite P. cbn [First.onload First.world First.this First.ytPlayer].
    destruct (existsb _ (First.fired started ticks)).
    + split; [discriminate|]. destruct (proj1 Q eq_refl) as [N Ht]. tauto.
    + split; [|reflexivity]. intros _.
      destruct (param_session l) as [s|] eqn:S; [|now left]. right. intros Ht.
      assert (R : false = true) by (apply Q; split; [discriminate | exact Ht]).
      discriminate R.
Qed.

(** On a page in a session the queue interval ticks three times: the shell
    is injected and the player created once. On a page without session the
    same ticks do nothing. *)
Example plugin_ticks :
  First.trace
    (First.world
       (fold_left (First.tick (mkYTPlayer 0 UNSTARTED))
          [First.queueInject; First.leaveButton; First.queueInject; First.queueInject]
          (First.onload FirstSample.shared)))
  = [First.injectEmptyQueueShell; First.new_YT_Player (Some "aaaaaaaaaaa");
     First.window_cucu_player;
     First.injectYtRenderedButton "leave-sync-button" "Leave Sync"]
  /\ First.trace
       (First.world
          (fold_left (First.tick (mkYTPlayer 0 UNSTARTED))
             [First.queueInject; First.leaveButton; First.queueInject]
             (First.onload FirstSample.alone)))
     = [].
Proof. split; reflexivity. Qed.

(** X18. The two buttons switch the page between its two modes and keep the
    video. "Create Sync" on a page without session assigns a query string
    with the same video and the generated session; the page loaded from it
    runs the three intervals of a session, with that video and session for
    the player. "Leave Sync" there assigns the query string the user started
    from, and the page loaded from it runs the two intervals of a page
    without session. *)
Theorem sync_and_leave (l : Location) (generated : string) :
  param_session l = None ->
  let joined_at := First.urlParams (First.click_create_sync generated (First.onload l)) in
  let left_at := First.urlParams (First.click_leave (First.onload joined_at)) in
  joined_at = mkLocation (param_v l) (Some generated)
  /\ First.issued (First.world (First.onload l))
       (First.world (First.click_create_sync generated (First.onload l)))
     = [First.location_search_assign joined_at]
  /\ First.timers (First.onload joined_at)
     = [First.leaveButton; First.removeUpnext; First.queueInject]
  /\ First.videoId (First.onload joined_at) = param_v l
  /\ First.sessionId (First.onload joined_at) = Some generated
  /\ left_at = l
  /\ First.timers (First.onload left_at) = [First.syncButton; First.queueAddButton].
Proof.
  intros S. destruct l as [v s]. simpl in S. subst s. repeat split.
Qed.

Lemma sync_and_leave_witness :
  param_session FirstSample.alone = None
  /\ First.urlParams (First.click_create_sync "room" (First.onload FirstSample.alone))
     = FirstSample.shared.
Proof.
  split; [reflexivity|].
  exact (proj1 (sync_and_leave FirstSample.alone "room" eq_refl)).
Defined.

(** * The earlier class *)

Lemma earlier_issued_app (w w' : EarlierClass.World) l :
  EarlierClass.trace w' = EarlierClass.trace w ++ l -> EarlierClass.issued w w' = l.
Proof. unfold EarlierClass.issued. intros ->. apply skipn_length_app. Qed.

Lemma earlier_issued_none (w w' : EarlierClass.World) :
  EarlierClass.trace w' = EarlierClass.trace w -> EarlierClass.issued w w' = [].
Proof. intros H. apply earlier_issued_app. now rewrite app_nil_r. Qed.

Lemma earlier_populateQueue_rendered data w :
  EarlierClass.populateQueue (whole data) w
  = EarlierClass.Done
      (EarlierClass.with_this (EarlierClass.set_queueItemsElement (rendered data)) w).
Proof.
  unfold EarlierClass.populateQueue. cbn zeta.
  assert (G : forall (sel : Video -> bool) vs w,
             fold_left (fun w v => EarlierClass.addToQueue v (sel v) w) vs w
             = EarlierClass.with_this (fun p =>
                 EarlierClass.set_queueItemsElement
                   (EarlierClass.queueItemsElement p
                    ++ map (fun v => mkElement (videoId v) (title v) (byline v) (sel v)) vs)
                   p) w).
  { clear. intros sel. induction vs as [|v vs IH]; intros [[s y o q] l t]; simpl.
    - unfold EarlierClass.with_this, EarlierClass.set_queueItemsElement. simpl.
      now rewrite app_nil_r.
    - rewrite IH. unfold EarlierClass.addToQueue, EarlierClass.with_this,
        EarlierClass.set_queueItemsElement, EarlierClass.injectVideoQueueElement.
      simpl. now rewrite <- app_assoc. }
  rewrite (G (snapshot_selects data)). now destruct w.
Qed.

(** The two ends of [selectQueueElement], as in the later class. *)
Lemma earlier_selectQueueElement_outcome id w :
  EarlierClass.selectQueueElement id w =
    if selector_safe id
    then EarlierClass.Done
           (EarlierClass.with_this (fun p =>
              EarlierClass.set_queueItemsElement
                (selecting id (EarlierClass.queueItemsElement p)) p) w)
    else EarlierClass.Thrown UnrecognizedExpression
           (EarlierClass.with_this (fun p =>
              EarlierClass.set_queueItemsElement
                (map removeAttr_selected (EarlierClass.queueItemsElement p)) p) w).
Proof.
  unfold EarlierClass.selectQueueElement, jq_find. cbn zeta.
  destruct (selector_safe id); [|reflexivity].
  unfold EarlierClass.with_this.
  cbn [EarlierClass.this EarlierClass.queueItemsElement EarlierClass.set_queueItemsElement].
  now rewrite selecting_map.
Qed.

Lemma earlier_removeFromQueue_outcome video w :
  EarlierClass.removeFromQueue video w =
    if selector_safe (template_videoId video)
    then EarlierClass.Done
           (EarlierClass.with_this (fun p =>
              EarlierClass.set_queueItemsElement
                (filter (fun e => negb (String.eqb (attr_videoId e) (template_videoId video)))
                        (EarlierClass.queueItemsElement p)) p) w)
    else EarlierClass.Thrown UnrecognizedExpression w.
Proof. unfold EarlierClass.removeFromQueue, jq_find. now destruct (selector_safe _). Qed.

Lemma earlier_onWsMessage_without_player m w :
  EarlierClass.ytPlayer (EarlierClass.this w) = None ->
  EarlierClass.onWsMessage m w
  = EarlierClass.emit
      (EarlierClass.console_error
         match m with Unparseable => SyntaxError | _ => TypeError end) w.
Proof.
  intros H. unfold EarlierClass.onWsMessage, EarlierClass.onWsMessage_try.
  rewrite H. now destruct m.
Qed.

(** The earlier handler on a running player, case by case. *)
Lemma earlier_onWsMessage_running w p m :
  EarlierClass.ytPlayer (EarlierClass.this w) = Some p ->
  EarlierClass.onWsMessage m w =
    match m with
    | Unparseable => EarlierClass.emit (EarlierClass.console_error SyntaxError) w
    | Null => EarlierClass.emit (EarlierClass.console_error TypeError) w
    | Play data =>
        let w1 := if differs_more_than (parseFloat data) (getCurrentTime p) default_margin
                  then EarlierClass.emit (EarlierClass.seekTo (parseFloat data) true) w
                  else w in
        if PlayerState_eqb (getPlayerState p) PAUSED
        then EarlierClass.emit EarlierClass.playVideo w1 else w1
    | Pause data =>
        let w1 := if differs_more_than (parseFloat data) (getCurrentTime p) default_margin
                  then EarlierClass.emit (EarlierClass.seekTo (parseFloat data) true) w
                  else w in
        if PlayerState_eqb (getPlayerState p) PLAYING
        then EarlierClass.emit EarlierClass.pauseVideo w1 else w1
    | Seek data => EarlierClass.emit (EarlierClass.seekTo (parseFloat data) true) w
    | PlayVideo id =>
        EarlierClass.try_catch_log (EarlierClass.changeQueryStringVideoId id w)
    | Queue data =>
        EarlierClass.with_this (EarlierClass.set_queueItemsElement (rendered data)) w
    | QueueWithoutVideo [] =>
        EarlierClass.with_this (EarlierClass.set_queueItemsElement []) w
    | QueueWithoutVideo (_ :: _) | QueueWithoutVideos =>
        EarlierClass.emit (EarlierClass.console_error TypeError)
          (EarlierClass.with_this (EarlierClass.set_queueItemsElement []) w)
    | AddToQueue v => EarlierClass.addToQueue v false w
    | RemoveFromQueue v =>
        EarlierClass.try_catch_log (EarlierClass.removeFromQueue (inl v) w)
    | RemoveFromQueueText id =>
        EarlierClass.try_catch_log (EarlierClass.removeFromQueue (inr id) w)
    | _ => w
    end.
Proof.
  intros H.
  unfold EarlierClass.onWsMessage, EarlierClass.onWsMessage_try,
    EarlierClass.syncPlayerTime, EarlierClass.ytPlayer_do.
  destruct m as [ | |d|d|d|v|id|data|v|v|cs|c|id| |vs| |id]; rewrite ?H; try reflexivity.
  - cbn zeta. destruct (differs_more_than _ _ _); rewrite ?H; simpl;
      destruct (PlayerState_eqb _ _); simpl; rewrite ?H; reflexivity.
  - cbn zeta. destruct (differs_more_than _ _ _); rewrite ?H; simpl;
      destruct (PlayerState_eqb _ _); simpl; rewrite ?H; reflexivity.
  - now rewrite earlier_populateQueue_rendered.
  - now destruct vs.
Qed.

(** The effects of a step of the earlier class, read off its trace. *)
Ltac earlier_trace :=
  first [ rewrite earlier_issued_none by reflexivity
        | erewrite earlier_issued_app
            by (cbn; rewrite <- ?app_assoc; reflexivity) ];
  reflexivity.

(** X19. The later class handles every inbound frame as the earlier class
    did, as far as the session, the player object, the options and the queue
    go: from the same state the two handlers reach the same state, for every
    frame and also before the player exists. They also issue the same
    effects, for every frame but AUTOPLAY, PLAY_VIDEO and a
    CLIENT_DISCONNECT whose socketId does not stand for itself in a
    selector: the later class throws on that one and logs the error, the
    earlier class has no case for it. *)
Theorem later_class_keeps_the_earlier (e : EarlierClass.World) (w : World) (m : Frame) :
  same_state e w ->
  same_state (EarlierClass.onWsMessage m e) (onWsMessage m w)
  /\ ((forall v, m <> Autoplay v) -> (forall id, m <> PlayVideo id) ->
      (forall id, m = ClientDisconnect id -> selector_safe id = true) ->
      map in_later (EarlierClass.issued e (EarlierClass.onWsMessage m e))
      = map Some (issued w (onWsMessage m w))).
Proof.
  intros S. pose proof S as (S1 & S2 & S3 & S4).
  destruct (ytPlayer (this w)) as [p|] eqn:H.
  - rewrite (earlier_onWsMessage_running e p m S2). split.
    + unfold same_state. rewrite (this_onWsMessage w p H m).
      destruct m as [ | |d|d|d|v|id|data|v|v|cs|c|id| |vs| |id];
        rewrite ?addClients_shape,
          ?earlier_removeFromQueue_outcome;
        unfold EarlierClass.changeQueryStringVideoId;
        rewrite ?earlier_selectQueueElement_outcome;
        cbn [template_videoId];
        try exact S;
        try (cbn zeta;
             destruct (differs_more_than _ _ _), (PlayerState_eqb _ _); exact S);
        try (unfold setAutoplay; destruct (_ && _); cbn; now auto);
        try (destruct (selector_safe _); cbn; now rewrite ?S1, ?S2, ?S3, ?S4);
        try (destruct vs);
        cbn; now rewrite ?S1, ?S2, ?S3, ?S4.
    + intros NA NP ND. rewrite (issued_onWsMessage w p H m).
      destruct m as [ | |d|d|d|v|id|data|v|v|cs|c|id| |vs| |id];
        try (now contradiction (NA v)); try (now contradiction (NP id));
        try rewrite (ND id eq_refl);
        rewrite ?earlier_removeFromQueue_outcome; cbn [template_videoId];
        try change (selector_safe "undefined") with true;
        cbn beta iota zeta;
        repeat match goal with
               | |- context [if ?b then _ else _] => destruct b
               | |- context [match ?l with [] => _ | _ :: _ => _ end] => destruct l
               end;
        earlier_trace.
  - assert (He : EarlierClass.ytPlayer (EarlierClass.this e) = None) by congruence.
    rewrite (earlier_onWsMessage_without_player m e He),
      (onWsMessage_without_player m w H).
    split; [exact S|]. intros _ _ _. rewrite issued_emit. earlier_trace.
Qed.

Lemma earlier_tick_after_change (w : EarlierClass.World) (p : YTPlayer) (o : Location)
    (id : string) :
  EarlierClass.ytPlayer (EarlierClass.this w) = Some p ->
  EarlierClass.window_location w = mkLocation (Some id) (param_session o) ->
  EarlierClass.urlChangeSchedule_tick o w
  = if option_string_eqb (param_v o) (Some id) then EarlierClass.Done w
    else EarlierClass.Done
           (EarlierClass.emit (EarlierClass.loadVideoById id)
              (EarlierClass.emit (EarlierClass.ws_send PLAY_VIDEO (text id)) w)).
Proof.
  intros H L. unfold EarlierClass.urlChangeSchedule_tick. rewrite L.
  unfold Location_eqb. cbn [param_v param_session].
  rewrite option_string_eqb_refl, andb_true_r.
  destruct (option_string_eqb (param_v o) (Some id)); [reflexivity|].
  unfold EarlierClass.onUrlChange, EarlierClass.ytPlayer_do. cbn [param_session param_v].
  destruct (param_session o); simpl; now rewrite H.
Qed.

(** X20. In the earlier class a navigation to a video whose id stands for
    itself in a selector goes through the URL. An inbound PLAY_VIDEO and a
    click on a queue entry put the video id into the query string of the
    page and select the entries of that video (the click also asks the page
    to navigate); neither loads the video nor sends a message. The next tick
    of the URL schedule, when the id in the URL has changed, sends one
    PLAY_VIDEO for the video and loads it; when the page was on the video
    already, nothing follows. *)
Theorem earlier_navigation_goes_through_the_url
    (w : EarlierClass.World) (p : YTPlayer) (id : string) :
  EarlierClass.ytPlayer (EarlierClass.this w) = Some p ->
  selector_safe id = true ->
  let o := EarlierClass.window_location w in
  let there := mkLocation (Some id) (param_session o) in
  let arrived := EarlierClass.onWsMessage (PlayVideo id) w in
  let announced w' :=
    if option_string_eqb (param_v o) (Some id) then EarlierClass.Done w'
    else EarlierClass.Done
           (EarlierClass.emit (EarlierClass.loadVideoById id)
              (EarlierClass.emit (EarlierClass.ws_send PLAY_VIDEO (text id)) w')) in
  exists clicked,
    EarlierClass.queueElementClickHandler id w = EarlierClass.Done clicked
    /\ (EarlierClass.window_location arrived = there
        /\ EarlierClass.issued w arrived = [EarlierClass.changeQueryString there]
        /\ EarlierClass.urlChangeSchedule_tick o arrived = announced arrived)
    /\ (EarlierClass.window_location clicked = there
        /\ EarlierClass.issued w clicked
           = [EarlierClass.onYtNavigate_ id (EarlierClass.sessionId (EarlierClass.this w));
              EarlierClass.changeQueryString there]
        /\ EarlierClass.urlChangeSchedule_tick o clicked = announced clicked)
    /\ EarlierClass.queueItemsElement (EarlierClass.this arrived)
       = selecting id (EarlierClass.queueItemsElement (EarlierClass.this w))
    /\ EarlierClass.queueItemsElement (EarlierClass.this clicked)
       = EarlierClass.queueItemsElement (EarlierClass.this arrived).
Proof.
  intros H Safe o there arrived announced.
  assert (A : arrived
              = EarlierClass.mkWorld
                  (EarlierClass.set_queueItemsElement
                     (selecting id (EarlierClass.queueItemsElement (EarlierClass.this w)))
                     (EarlierClass.this w))
                  there
                  (EarlierClass.trace w ++ [EarlierClass.changeQueryString there])).
  { subst arrived. rewrite (earlier_onWsMessage_running w p _ H).
    unfold EarlierClass.changeQueryStringVideoId. cbn zeta.
    now rewrite earlier_selectQueueElement_outcome, Safe. }
  unfold EarlierClass.queueElementClickHandler, EarlierClass.changeQueryStringVideoId.
  cbn zeta. rewrite earlier_selectQueueElement_outcome, Safe.
  eexists. split; [reflexivity|].
  split; [|split; [|split]].
  - rewrite A. split; [reflexivity|]. split; [now apply earlier_issued_app|].
    now apply (earlier_tick_after_change _ p o id).
  - split; [reflexivity|]. split.
    + apply earlier_issued_app. cbn. now rewrite <- app_assoc.
    + now apply (earlier_tick_after_change _ p o id).
  - now rewrite A.
  - now rewrite A.
Qed.

Lemma earlier_navigation_goes_through_the_url_witness :
  EarlierClass.ytPlayer (EarlierClass.this (EarlierSample.world PLAYING []))
  = Some (mkYTPlayer 10 PLAYING)
  /\ selector_safe "bbbbbbbbbbb" = true
  /\ exists clicked,
       EarlierClass.queueElementClickHandler "bbbbbbbbbbb" (EarlierSample.world PLAYING [])
       = EarlierClass.Done clicked
       /\ EarlierClass.window_location clicked
          = mkLocation (Some "bbbbbbbbbbb") (Some "room").
Proof.
  split; [reflexivity|]. split; [reflexivity|].
  destruct (earlier_navigation_goes_through_the_url
              (EarlierSample.world PLAYING []) (mkYTPlayer 10 PLAYING) "bbbbbbbbbbb"
              eq_refl eq_refl) as (clicked & C & _ & (L & _) & _).
  exists clicked. split; [exact C | exact L].
Defined.

Lemma later_class_keeps_the_earlier_witness :
  same_state (EarlierSample.world PLAYING [Sample.slot Sample.A true])
             (Sample.world PLAYING [Sample.slot Sample.A true])
  /\ same_state
       (EarlierClass.onWsMessage (AddToQueue Sample.B)
          (EarlierSample.world PLAYING [Sample.slot Sample.A true]))
       (onWsMessage (AddToQueue Sample.B)
          (Sample.world PLAYING [Sample.slot Sample.A true])).
Proof.
  assert (S : same_state (EarlierSample.world PLAYING [Sample.slot Sample.A true])
                         (Sample.world PLAYING [Sample.slot Sample.A true])).
  { repeat split. }
  split; [exact S|].
  exact (proj1 (later_class_keeps_the_earlier _ _ (AddToQueue Sample.B) S)).
Defined.

(** The same frames on both classes: the queues go the same way; the later
    class answers an AUTOPLAY the earlier one ignores; and an id with a
    double quote makes both throw after the entries were deselected, the
    earlier one with the URL changed already. *)
Example two_classes :
  let e := EarlierSample.world PLAYING [Sample.slot Sample.A true] in
  let w := Sample.world PLAYING [Sample.slot Sample.A true] in
  let frames := [AddToQueue Sample.B; PlayVideo "bbbbbbbbbbb"; Autoplay false;
                 RemoveFromQueue Sample.A] in
  EarlierClass.queueItemsElement
    (EarlierClass.this (fold_left (fun e m => EarlierClass.onWsMessage m e) frames e))
  = [Sample.slot Sample.B true]
  /\ queueItemsElement (this (fold_left (fun w m => onWsMessage m w) frames w))
     = [Sample.slot Sample.B true]
  /\ EarlierClass.onWsMessage (Autoplay false) e = e
  /\ issued w (onWsMessage (PlayVideo Sample.quoted) w)
     = [console_error UnrecognizedExpression]
  /\ EarlierClass.issued e (EarlierClass.onWsMessage (PlayVideo Sample.quoted) e)
     = [EarlierClass.changeQueryString (mkLocation (Some Sample.quoted) (Some "room"));
        EarlierClass.console_error UnrecognizedExpression]
  /\ EarlierClass.queueItemsElement
       (EarlierClass.this (EarlierClass.onWsMessage (PlayVideo Sample.quoted) e))
     = [Sample.slot Sample.A false]
  /\ issued w (onWsMessage (ClientDisconnect Sample.quoted) w)
     = [console_error UnrecognizedExpression]
  /\ EarlierClass.onWsMessage (ClientDisconnect Sample.quoted) e = e.
Proof. repeat split. Qed.
